(** * LinVAM: the voice-command compilation and execution engine

    A shallow embedding of [linvam/profileexecutor.py]: the expansion of a
    command name into its spoken phrases, the command table built by
    [set_profile], the transcript filter and lookup, the grammar constraint
    and the command runner, followed by the properties established on them.

    Conventions.  A Python [str] is a [list ascii]; a character stands for
    the code point of the same number, so the development covers text whose
    code points are below 256 (ASCII and Latin-1).  [str.isspace] and
    [str.lower] are the restrictions of Python's to that range.

    A method of [ProfileExecutor] is a function from the executor's state
    to an outcome (a normal return or a raised exception) and a new state.
    The collaborators are kept at their interface: the recognizer by what
    [SetGrammar] does, the stream by whether it exists and is started,
    [do_action] by the record of the actions passed to it.  Console output
    is not modelled.  A command thread runs on its own; what it reads in
    its stop flag, written by other threads, is a parameter of its run. *)

From Stdlib Require Import Ascii String List ZArith Lia Permutation Sorted Bool.
From Stdlib Require Import DecimalString.
From stdpp Require Import base option list sorting gmap strings.
From Equations Require Import Equations.
Import ListNotations.

Open Scope list_scope.
Open Scope nat_scope.

(** ** Python strings *)

Module PyStr.

Abbreviation str := (list ascii).

(** A literal: [py "go home"] is the Python string ["go home"].  Only ASCII
    literals are written this way (a character of a Rocq string is a byte
    of its UTF-8 encoding, not a code point). *)
Definition py (s : string) : str := list_ascii_of_string s.
Arguments py s%_string.

Definition ord (c : ascii) : nat := nat_of_ascii c.

(** [c.isspace()] for a code point below 256: TAB..CR, FS..US, SPACE,
    NEL (0x85) and NBSP (0xA0). *)
Definition isspace (c : ascii) : bool :=
  let n := ord c in
  ((9 <=? n) && (n <=? 13)) || ((28 <=? n) && (n <=? 32))
  || (n =? 133) || (n =? 160).

(** [c.lower()] for a code point below 256: A..Z and the Latin-1 capitals
    0xC0..0xDE (the multiplication sign 0xD7 is not a letter). *)
Definition lower_char (c : ascii) : ascii :=
  let n := ord c in
  if ((65 <=? n) && (n <=? 90))
     || ((192 <=? n) && (n <=? 222) && negb (n =? 215))
  then ascii_of_nat (n + 32) else c.

(** [s.lower()] *)
Definition lower (s : str) : str := map lower_char s.

Fixpoint lstrip (s : str) : str :=
  match s with
  | c :: r => if isspace c then lstrip r else s
  | [] => []
  end.

Definition rstrip (s : str) : str := rev (lstrip (rev s)).

(** [s.strip()] *)
Definition strip (s : str) : str := rstrip (lstrip s).

(** [s.split()]: the maximal runs of non-whitespace characters. *)
Fixpoint split (s : str) : list str :=
  match s with
  | [] => []
  | c :: r =>
      if isspace c then split r
      else match r with
           | [] => [[c]]
           | c' :: _ =>
               if isspace c' then [c] :: split r
               else match split r with
                    | w :: ws => (c :: w) :: ws
                    | [] => [[c]]
                    end
           end
  end.

(** [sep.join(words)] *)
Fixpoint join (sep : str) (words : list str) : str :=
  match words with
  | [] => []
  | [w] => w
  | w :: ws => w ++ sep ++ join sep ws
  end.

(** [s.split(sep)] for a one-character separator: never an empty list. *)
Fixpoint split_on (sep : ascii) (s : str) : list str :=
  match s with
  | [] => [[]]
  | c :: r =>
      if Ascii.eqb c sep then [] :: split_on sep r
      else match split_on sep r with
           | w :: ws => (c :: w) :: ws
           | [] => [[c]]
           end
  end.

Fixpoint startswith (s p : str) : bool :=
  match p, s with
  | [], _ => true
  | a :: p', b :: s' => Ascii.eqb a b && startswith s' p'
  | _ :: _, [] => false
  end.

(** [p in s] *)
Fixpoint contains (p s : str) : bool :=
  startswith s p ||
  match s with
  | [] => false
  | _ :: r => contains p r
  end.

(** [s[a:b]] for [0 <= a <= b]. *)
Definition slice (s : str) (a b : nat) : str := firstn (b - a) (skipn a s).

Definition str_eqb (a b : str) : bool := bool_decide (a = b).

End PyStr.
Import PyStr.

(** ** The two regular expressions *)

Module Re.

(** A match object of [re.finditer]: [start()], [end()], [group(1)]. *)
Record Match := { m_start : nat; m_end : nat; m_group1 : str }.

(** The greedy class run [[^\]]+]: the longest prefix free of "]". *)
Fixpoint class_run (s : str) : str :=
  match s with
  | c :: r => if Ascii.eqb c "]" then [] else c :: class_run r
  | [] => []
  end.

(** [\[([^\]]+)\]] tried at the head of [s]: the captured group.  The run
    is maximal, so it is followed by "]" or by the end of the text; no
    shorter run can be followed by "]", hence no backtracking. *)
Definition match_here (s : str) : option str :=
  match s with
  | c :: r =>
      if Ascii.eqb c "[" then
        let g := class_run r in
        match g, skipn (length g) r with
        | _ :: _, c' :: _ => if Ascii.eqb c' "]" then Some g else None
        | _, _ => None
        end
      else None
  | [] => None
  end.

Arguments match_here : simpl never.

(** The scan of [finditer]: [pos] is the index of the head of [s] in the
    text, [skip] the number of characters still covered by the previous
    match (matches do not overlap). *)
Fixpoint finditer_from (pos skip : nat) (s : str) : list Match :=
  match s with
  | [] => []
  | _ :: r =>
      match skip with
      | S k => finditer_from (S pos) k r
      | O =>
          match match_here s with
          | Some g =>
              {| m_start := pos; m_end := pos + length g + 2; m_group1 := g |}
                :: finditer_from (S pos) (length g + 1) r
          | None => finditer_from (S pos) 0 r
          end
      end
  end.

(** [list(re.compile(r'\[([^\]]+)\]').finditer(text))] *)
Definition finditer (text : str) : list Match := finditer_from 0 0 text.

(** The lookahead body [[^\[]*\]] tried at the head of [s]: a "]" comes
    before any "[". *)
Fixpoint closes_bracket (s : str) : bool :=
  match s with
  | [] => false
  | c :: r =>
      if Ascii.eqb c "]" then true
      else if Ascii.eqb c "[" then false
      else closes_bracket r
  end.

(** [re.split(COMMAND_NAME_COMMA_SPLIT_REGGEX, s)] with the pattern
    [,(?![^\[]*\])]: cut at every comma that is not inside brackets. *)
Fixpoint split_commas (s : str) : list str :=
  match s with
  | [] => [[]]
  | c :: r =>
      if Ascii.eqb c "," && negb (closes_bracket r) then [] :: split_commas r
      else match split_commas r with
           | w :: ws => (c :: w) :: ws
           | [] => [[c]]
           end
  end.

End Re.
Import Re.

(** ** Phrase expansion: [_expand_optional_brackets] *)

Inductive segment :=
| fixed (content : str)
| optional (alternatives : list str).

(** The loop [for match in matches], threading [last_end]. *)
Fixpoint collect_segments (text : str) (matches : list Match) (last_end : nat)
  : list segment * nat :=
  match matches with
  | [] => ([], last_end)
  | m :: ms =>
      let before :=
        if last_end <? m_start m
        then [fixed (slice text last_end (m_start m))] else [] in
      let alternatives := map strip (split_on "," (m_group1 m)) in
      let '(rest, last) := collect_segments text ms (m_end m) in
      (before ++ optional alternatives :: rest, last)
  end.

Definition segments_of (text : str) (matches : list Match) : list segment :=
  let '(segs, last_end) := collect_segments text matches 0 in
  segs ++ (if last_end <? length text
           then [fixed (slice text last_end (length text))] else []).

(** [[None] + alternatives] for every optional segment, in order. *)
Fixpoint choice_lists (segs : list segment) : list (list (option str)) :=
  match segs with
  | [] => []
  | fixed _ :: r => choice_lists r
  | optional alternatives :: r => (None :: map Some alternatives) :: choice_lists r
  end.

(** [itertools.product] over the choice lists: the last list advances
    fastest. *)
Fixpoint product {A} (lists : list (list A)) : list (list A) :=
  match lists with
  | [] => [[]]
  | l :: rest => flat_map (fun x => map (cons x) (product rest)) l
  end.

(** The inner loop [for seg_type, content in segments].  The lookup
    [combination[optional_idx]] is in range, a combination having one entry
    per optional segment ([product_length] below); out of range nothing is
    appended. *)
Fixpoint build_parts (segs : list segment) (combination : list (option str))
    (optional_idx : nat) : list str :=
  match segs with
  | [] => []
  | fixed content :: r => content :: build_parts r combination optional_idx
  | optional _ :: r =>
      match combination !! optional_idx with
      | Some (Some choice) => choice :: build_parts r combination (S optional_idx)
      | _ => build_parts r combination (S optional_idx)
      end
  end.

(** [' '.join(''.join(parts).split())] *)
Definition normalize (variation : str) : str := join (py " ") (split variation).

Definition variation_of (segs : list segment) (combination : list (option str)) : str :=
  normalize (concat (build_parts segs combination 0)).

Definition is_empty (s : str) : bool := match s with [] => true | _ => false end.

Definition variations_of (segs : list segment) : list str :=
  List.filter (fun v => negb (is_empty v))
              (map (variation_of segs) (product (choice_lists segs))).

Definition _expand_optional_brackets (text : str) : list str :=
  match finditer text with
  | [] => [text]
  | matches =>
      match variations_of (segments_of text matches) with
      | [] => [text]
      | variations => variations
      end
  end.

(** ** The data model *)

(** An action record of a profile, tagged by its ['name'] as [do_action]
    reads it; a pause is kept in milliseconds. *)
Inductive Action :=
| KEY_ACTION (key_events : str) (delay : Z)
| PAUSE_ACTION (time_ms : Z)
| COMMAND_STOP_ACTION (command_name : str)
| EXECUTE_VOICE_COMMAND_ACTION (command_name : str)
| EXECUTE_EXTERNAL_COMMAND_ACTION (command : str)
| PLAY_SOUND (pack cat : str) (files : list str)
| STOP_SOUND
| MOUSE_MOVE_ACTION (x y : Z) (absolute : bool)
| MOUSE_CLICK_ACTION (button : str) (type : Z)
| MOUSE_SCROLL_ACTION (delta : Z).

(** An entry of [profile['commands']]. *)
Record Command := {
  name : str;
  actions : list Action;
  repeat : Z;
  async : bool
}.

Record Profile := {
  profile_name : str;
  commands : list Command
}.

(** The part of [p_parent.m_config] the executor reads;
    [IGNORED_SINGLE_WORDS] is [None] when the key is absent. *)
Record Config := {
  DEBUG : bool;
  IGNORED_SINGLE_WORDS : option (list str)
}.

(** What a Python call may raise.  The handlers of the executor tell
    [AttributeError] from the other subclasses of [Exception]. *)
Inductive exn :=
| AttributeError (msg : str)
| OtherError (msg : str).

(** The recognition engine, by its contract: whether the object has a
    [SetGrammar] method, what that method does with a grammar (an error, or
    [None] when it accepts it), and the grammar in force. *)
Record KaldiRecognizer := {
  has_SetGrammar : bool;
  SetGrammar_error : list str -> option exn;
  grammar : option (list str)
}.

(** [sounddevice.RawInputStream] *)
Record RawInputStream := { active : bool }.

(** What [keyboard.hook] and [mouse.hook] leave in the executor to take
    the hook out again, by its contract: the error that removing the hook
    raises, or [None] when it is removed. *)
Record Hook := { unhook_error : option exn }.

(** [ProfileExecutor.CommandThread] *)
Record CommandThread := {
  m_actions : list Action;
  m_repeat : Z;
  m_stop : bool
}.

(** The executor.  [m_cmd_threads] maps a command name to a reference into
    [threads], the thread objects created so far.  The last four fields
    are the world around the executor: the phrases handed to
    [save_to_commands_file], the actions passed to [do_action] on the
    calling thread, the reasons of the grammar warnings shown, and
    whether the console can encode the warning sign and the check mark
    that three messages of the source start with. *)
Record ProfileExecutor := {
  m_profile : option Profile;
  commands_list : list str;
  m_cmd_threads : gmap str nat;
  threads : list CommandThread;
  listening : bool;
  m_stream : option RawInputStream;
  ptl_keyboard_listener : option Hook;
  ptl_mouse_listener : option Hook;
  recognizer : option KaldiRecognizer;
  grammar_supported : bool;
  m_config : Config;
  commands_file : list str;
  performed : list Action;
  warnings : list str;
  stdout_encodes_symbols : bool
}.

(** Field updates. *)

Definition set_m_profile v s :=
  {| m_profile := v; commands_list := commands_list s;
     m_cmd_threads := m_cmd_threads s; threads := threads s;
     listening := listening s; m_stream := m_stream s;
     ptl_keyboard_listener := ptl_keyboard_listener s;
     ptl_mouse_listener := ptl_mouse_listener s;
     recognizer := recognizer s; grammar_supported := grammar_supported s;
     m_config := m_config s; commands_file := commands_file s;
     performed := performed s; warnings := warnings s;
     stdout_encodes_symbols := stdout_encodes_symbols s |}.

Definition set_commands_list v s :=
  {| m_profile := m_profile s; commands_list := v;
     m_cmd_threads := m_cmd_threads s; threads := threads s;
     listening := listening s; m_stream := m_stream s;
     ptl_keyboard_listener := ptl_keyboard_listener s;
     ptl_mouse_listener := ptl_mouse_listener s;
     recognizer := recognizer s; grammar_supported := grammar_supported s;
     m_config := m_config s; commands_file := commands_file s;
     performed := performed s; warnings := warnings s;
     stdout_encodes_symbols := stdout_encodes_symbols s |}.

Definition set_m_cmd_threads v s :=
  {| m_profile := m_profile s; commands_list := commands_list s;
     m_cmd_threads := v; threads := threads s;
     listening := listening s; m_stream := m_stream s;
     ptl_keyboard_listener := ptl_keyboard_listener s;
     ptl_mouse_listener := ptl_mouse_listener s;
     recognizer := recognizer s; grammar_supported := grammar_supported s;
     m_config := m_config s; commands_file := commands_file s;
     performed := performed s; warnings := warnings s;
     stdout_encodes_symbols := stdout_encodes_symbols s |}.

Definition set_threads v s :=
  {| m_profile := m_profile s; commands_list := commands_list s;
     m_cmd_threads := m_cmd_threads s; threads := v;
     listening := listening s; m_stream := m_stream s;
     ptl_keyboard_listener := ptl_keyboard_listener s;
     ptl_mouse_listener := ptl_mouse_listener s;
     recognizer := recognizer s; grammar_supported := grammar_supported s;
     m_config := m_config s; commands_file := commands_file s;
     performed := performed s; warnings := warnings s;
     stdout_encodes_symbols := stdout_encodes_symbols s |}.

Definition set_listening v s :=
  {| m_profile := m_profile s; commands_list := commands_list s;
     m_cmd_threads := m_cmd_threads s; threads := threads s;
     listening := v; m_stream := m_stream s;
     ptl_keyboard_listener := ptl_keyboard_listener s;
     ptl_mouse_listener := ptl_mouse_listener s;
     recognizer := recognizer s; grammar_supported := grammar_supported s;
     m_config := m_config s; commands_file := commands_file s;
     performed := performed s; warnings := warnings s;
     stdout_encodes_symbols := stdout_encodes_symbols s |}.

Definition set_m_stream v s :=
  {| m_profile := m_profile s; commands_list := commands_list s;
     m_cmd_threads := m_cmd_threads s; threads := threads s;
     listening := listening s; m_stream := v;
     ptl_keyboard_listener := ptl_keyboard_listener s;
     ptl_mouse_listener := ptl_mouse_listener s;
     recognizer := recognizer s; grammar_supported := grammar_supported s;
     m_config := m_config s; commands_file := commands_file s;
     performed := performed s; warnings := warnings s;
     stdout_encodes_symbols := stdout_encodes_symbols s |}.

Definition set_ptl_listeners k m s :=
  {| m_profile := m_profile s; commands_list := commands_list s;
     m_cmd_threads := m_cmd_threads s; threads := threads s;
     listening := listening s; m_stream := m_stream s;
     ptl_keyboard_listener := k;
     ptl_mouse_listener := m;
     recognizer := recognizer s; grammar_supported := grammar_supported s;
     m_config := m_config s; commands_file := commands_file s;
     performed := performed s; warnings := warnings s;
     stdout_encodes_symbols := stdout_encodes_symbols s |}.

Definition set_recognizer v s :=
  {| m_profile := m_profile s; commands_list := commands_list s;
     m_cmd_threads := m_cmd_threads s; threads := threads s;
     listening := listening s; m_stream := m_stream s;
     ptl_keyboard_listener := ptl_keyboard_listener s;
     ptl_mouse_listener := ptl_mouse_listener s;
     recognizer := v; grammar_supported := grammar_supported s;
     m_config := m_config s; commands_file := commands_file s;
     performed := performed s; warnings := warnings s;
     stdout_encodes_symbols := stdout_encodes_symbols s |}.

Definition set_grammar_supported v s :=
  {| m_profile := m_profile s; commands_list := commands_list s;
     m_cmd_threads := m_cmd_threads s; threads := threads s;
     listening := listening s; m_stream := m_stream s;
     ptl_keyboard_listener := ptl_keyboard_listener s;
     ptl_mouse_listener := ptl_mouse_listener s;
     recognizer := recognizer s; grammar_supported := v;
     m_config := m_config s; commands_file := commands_file s;
     performed := performed s; warnings := warnings s;
     stdout_encodes_symbols := stdout_encodes_symbols s |}.

Definition set_commands_file v s :=
  {| m_profile := m_profile s; commands_list := commands_list s;
     m_cmd_threads := m_cmd_threads s; threads := threads s;
     listening := listening s; m_stream := m_stream s;
     ptl_keyboard_listener := ptl_keyboard_listener s;
     ptl_mouse_listener := ptl_mouse_listener s;
     recognizer := recognizer s; grammar_supported := grammar_supported s;
     m_config := m_config s; commands_file := v;
     performed := performed s; warnings := warnings s;
     stdout_encodes_symbols := stdout_encodes_symbols s |}.

Definition set_performed v s :=
  {| m_profile := m_profile s; commands_list := commands_list s;
     m_cmd_threads := m_cmd_threads s; threads := threads s;
     listening := listening s; m_stream := m_stream s;
     ptl_keyboard_listener := ptl_keyboard_listener s;
     ptl_mouse_listener := ptl_mouse_listener s;
     recognizer := recognizer s; grammar_supported := grammar_supported s;
     m_config := m_config s; commands_file := commands_file s;
     performed := v; warnings := warnings s;
     stdout_encodes_symbols := stdout_encodes_symbols s |}.

Definition set_warnings v s :=
  {| m_profile := m_profile s; commands_list := commands_list s;
     m_cmd_threads := m_cmd_threads s; threads := threads s;
     listening := listening s; m_stream := m_stream s;
     ptl_keyboard_listener := ptl_keyboard_listener s;
     ptl_mouse_listener := ptl_mouse_listener s;
     recognizer := recognizer s; grammar_supported := grammar_supported s;
     m_config := m_config s; commands_file := commands_file s;
     performed := performed s; warnings := v;
     stdout_encodes_symbols := stdout_encodes_symbols s |}.



(** ** Effects: the executor's state, and exceptions

    A method of the executor is a state transformer that returns normally
    or raises; what it wrote to the executor before raising stays written,
    as in Python. *)

Inductive result (A : Type) :=
| Ok (a : A)
| Raise (e : exn).
Arguments Ok {A} a.
Arguments Raise {A} e.

Definition M (A : Type) : Type := ProfileExecutor -> result A * ProfileExecutor.

#[global] Instance M_ret : MRet M := fun A a s => (Ok a, s).

#[global] Instance M_bind : MBind M := fun A B k m s =>
  match m s with
  | (Ok a, s') => k a s'
  | (Raise e, s') => (Raise e, s')
  end.

Definition raise {A} (e : exn) : M A := fun s => (Raise e, s).

Definition get : M ProfileExecutor := fun s => (Ok s, s).

Definition modify (f : ProfileExecutor -> ProfileExecutor) : M unit :=
  fun s => (Ok tt, f s).

(** [try: body / except Exception as e: handler(e)] *)
Definition try_except {A} (body : M A) (handler : exn -> M A) : M A :=
  fun s =>
    match body s with
    | (Raise e, s') => handler e s'
    | r => r
    end.

Definition exec {A} (m : M A) (s : ProfileExecutor) : ProfileExecutor := snd (m s).

(** ** The table: [set_profile] and what it calls *)

(** [self.recognizer], about to have a method called on it. *)
Definition the_recognizer : M KaldiRecognizer :=
  s ← get;
  match recognizer s with
  | Some r => mret r
  | None => raise (AttributeError (py "'NoneType' object has no attribute"))
  end.

(** [self.ptl_keyboard_listener()] and [mouse.unhook(...)]: the hook is
    removed, or the call raises. *)
Definition unhook (hk : Hook) : M unit :=
  match unhook_error hk with
  | Some e => raise e
  | None => mret tt
  end.

(** The two hooks are removed in turn, inside one [try]: when removing one
    raises, its attribute stays set, what follows in the [try] is skipped,
    and the handler prints the error and goes on. *)
Definition _stop_ptl_listener : M unit :=
  try_except
    (s ← get;
     match ptl_keyboard_listener s with
     | Some hk =>
         unhook hk;;
         modify (fun s => set_ptl_listeners None (ptl_mouse_listener s) s)
     | None => mret tt
     end;;
     s ← get;
     match ptl_mouse_listener s with
     | Some hk =>
         unhook hk;;
         modify (fun s => set_ptl_listeners (ptl_keyboard_listener s) None s)
     | None => mret tt
     end)
    (fun ex => mret tt).   (* print(str(ex)) *)

Definition _stop : M unit :=
  s ← get;
  match m_stream s with
  | None => mret tt
  | Some _ =>
      _stop_ptl_listener;;
      modify (set_m_stream None);;
      _ ← the_recognizer;   (* self.recognizer.FinalResult() *)
      modify (set_listening false)
  end.

Definition _init_stream : M unit :=
  s ← get;
  match recognizer s with
  | None => mret tt
  | Some _ => modify (set_m_stream (Some {| active := false |}))
  end.

Definition _start_stream : M unit :=
  s ← get;
  (match m_stream s with None => _init_stream | Some _ => mret tt end);;
  s ← get;
  match m_stream s with
  | None => raise (AttributeError (py "'NoneType' object has no attribute 'start'"))
  | Some _ => modify (set_m_stream (Some {| active := true |}))
  end.

Definition _show_grammar_not_supported_warning (reason : str) : M unit :=
  modify (set_grammar_supported false);;
  modify (fun s => set_warnings (warnings s ++ [reason]) s).

(** [self.recognizer.SetGrammar(grammar)] *)
Definition SetGrammar (g : list str) : M unit :=
  r ← the_recognizer;
  if has_SetGrammar r then
    match SetGrammar_error r g with
    | Some e => raise e
    | None =>
        modify (set_recognizer
                  (Some {| has_SetGrammar := has_SetGrammar r;
                           SetGrammar_error := SetGrammar_error r;
                           grammar := Some g |}))
    end
  else raise (AttributeError (py "'KaldiRecognizer' object has no attribute 'SetGrammar'")).

(** The two symbols the messages hold, by their code points: the warning
    sign and the check mark.  Each stands first in its message. *)
Definition warning_sign : str := py "26a0".
Definition check_mark : str := py "2713".

(** What [str(e)] is for the [UnicodeEncodeError] of a console that cannot
    encode the symbol (here an ASCII console). *)
Definition unicode_error (symbol : str) : str :=
  py "'ascii' codec can't encode character '\u" ++ symbol
  ++ py "' in position 0: ordinal not in range(128)".

(** [print] of a message that starts with the symbol. *)
Definition print_symbols (symbol : str) : M unit :=
  s ← get;
  if stdout_encodes_symbols s then mret tt
  else raise (OtherError (unicode_error symbol)).

(** The grammar is the JSON array of the phrases; it is kept as the list
    that [json.dumps] serialises.  The banner printed after [SetGrammar]
    has returned holds the warning sign, inside the [try]. *)
Definition _apply_grammar_constraint : M unit :=
  s ← get;
  match recognizer s with
  | None => mret tt
  | Some r =>
      match commands_list s with
      | [] => mret tt
      | _ :: _ =>
          let grammar := commands_list s in
          try_except
            (if negb (has_SetGrammar r) then
               _show_grammar_not_supported_warning
                 (py "SetGrammar method not available in this VOSK version")
             else
               SetGrammar grammar;;
               modify (set_grammar_supported true);;
               print_symbols warning_sign)
            (fun e =>
               match e with
               | AttributeError msg =>
                   _show_grammar_not_supported_warning
                     (py "SetGrammar method not available: " ++ msg)
               | OtherError msg => _show_grammar_not_supported_warning msg
               end)
      end
  end.

(** The phrases one command contributes, in the order the three nested
    loops of [set_profile] append them. *)
Definition command_parts (w_command : Command) : list str :=
  map strip (split_commas (lower (strip (name w_command)))).

Definition command_phrases (w_command : Command) : list str :=
  flat_map _expand_optional_brackets (command_parts w_command).

Definition profile_phrases (p : Profile) : list str :=
  flat_map command_phrases (commands p).

(** [list.sort(key=len, reverse=True)]: the sort is stable, also reversed,
    so the result is the insertion of each phrase before the first shorter
    or equally long phrase among those that followed it. *)
Fixpoint insert_by_len (x : str) (l : list str) : list str :=
  match l with
  | [] => [x]
  | y :: r => if length y <=? length x then x :: l else y :: insert_by_len x r
  end.

Definition sort_len_reverse (l : list str) : list str := foldr insert_by_len [] l.

Definition set_profile (p_profile : option Profile) : M unit :=
  s ← get;
  let was_listening := listening s in
  (if was_listening then _stop else mret tt);;
  modify (set_m_profile p_profile);;
  modify (set_commands_list []);;
  match p_profile with
  | None => mret tt
  | Some p =>
      modify (fun s => set_commands_list (commands_list s ++ profile_phrases p) s);;
      s ← get;
      modify (set_commands_file (commands_list s));;   (* save_to_commands_file *)
      modify (fun s => set_commands_list (sort_len_reverse (commands_list s)) s);;
      _apply_grammar_constraint;;
      if was_listening then _start_stream else mret tt
  end.

(** ** Running a command *)

(** [do_action] is the boundary of the model: the action is recorded, its
    effect on the input devices, the sound player or the clock is not
    followed. *)
Definition do_action (p_action : Action) : M unit :=
  modify (fun s => set_performed (performed s ++ [p_action]) s).

Fixpoint for_each_action (acts : list Action) : M unit :=
  match acts with
  | [] => mret tt
  | a :: r => do_action a;; for_each_action r
  end.

Definition _get_command_for_executing (s : ProfileExecutor) (cmd_name : str)
  : option Command :=
  match m_profile s with
  | None => None
  | Some p =>
      find (fun w_command =>
              existsb (fun variation => str_eqb (lower variation) cmd_name)
                      (command_phrases w_command))
           (commands p)
  end.

(** The synchronous loop [while w_repeat > 0: ...; w_repeat -= 1]. *)
Equations? run_inline (acts : list Action) (w_repeat : Z) : M unit
  by wf (Z.to_nat w_repeat) lt :=
  run_inline acts w_repeat with Z_lt_dec 0 w_repeat => {
    | left _ => for_each_action acts;; run_inline acts (w_repeat - 1)
    | right _ => mret tt }.
Proof. lia. Qed.

(** [CommandThread.run], on its own thread.  [m_stop] is written by other
    threads: [stop_read k] is the value the [k]-th evaluation of the loop
    condition reads.  The result is the sequence of actions the thread
    passes to [do_action]. *)
Equations? thread_loop (acts : list Action) (stop_read : nat -> bool)
    (k : nat) (w_repeat : Z) : list Action by wf (Z.to_nat w_repeat) lt :=
  thread_loop acts stop_read k w_repeat with stop_read k => {
    | true => []
    | false with Z_lt_dec 0 w_repeat => {
        | left _ => acts ++ thread_loop acts stop_read (S k) (w_repeat - 1)
        | right _ => [] } }.
Proof. lia. Qed.

Definition CommandThread_run (t : CommandThread) (stop_read : nat -> bool)
  : list Action :=
  thread_loop (m_actions t) stop_read 0 (m_repeat t).

(** [CommandThread.stop] *)
Definition CommandThread_stop (t : CommandThread) : CommandThread :=
  {| m_actions := m_actions t; m_repeat := m_repeat t; m_stop := true |}.

Definition _do_command (p_cmd_name : str) : M unit :=
  s ← get;
  match _get_command_for_executing s p_cmd_name with
  | None => mret tt
  | Some w_command =>
      if negb (async w_command) then
        run_inline (actions w_command) (Z.max (repeat w_command) 1)
      else
        let w_cmd_thread :=
          {| m_actions := actions w_command;
             m_repeat := repeat w_command;
             m_stop := false |} in
        modify (fun s =>
          set_m_cmd_threads
            (<[p_cmd_name := length (threads s)]> (m_cmd_threads s))
            (set_threads (threads s ++ [w_cmd_thread]) s))
  end.

Definition _stop_command (p_cmd_name : str) : M unit :=
  s ← get;
  match m_cmd_threads s !! p_cmd_name with
  | Some t =>
      modify (fun s => set_threads (alter CommandThread_stop t (threads s)) s);;
      modify (fun s => set_m_cmd_threads (delete p_cmd_name (m_cmd_threads s)) s)
  | None => mret tt
  end.

(** ** From a transcript to a command *)

Definition default_ignored_words : list str :=
  map py ["the"; "a"; "an"; "but"; "their"; "there"; "they"; "be"; "to";
          "of"; "and"]%string.

Definition ignored_words_of (cfg : Config) : list str :=
  match default [] (IGNORED_SINGLE_WORDS cfg) with
  | [] => default_ignored_words
  | configured => configured
  end.

Definition _is_ignored_single_word (cfg : Config) (result_string : str) : bool :=
  let words := split (strip result_string) in
  if negb (length words =? 1) then false
  else existsb (str_eqb (lower result_string)) (ignored_words_of cfg).

(** The loop of [check_commands]; the branch taken ends with [break]. *)
Fixpoint check_commands_in (cl : list str) (result_string : str) : M unit :=
  match cl with
  | [] => mret tt
  | command :: rest =>
      if contains command result_string then
        _ ← the_recognizer;   (* self.recognizer.Result() *)
        _do_command command
      else check_commands_in rest result_string
  end.

Definition check_commands (result_string : str) : M unit :=
  s ← get;
  check_commands_in (commands_list s) result_string.

(** [listen_callback], from the text [get_listen_result] returned for the
    audio block (empty when no utterance was finalised). *)
Definition listen_callback (result_string : str) : M unit :=
  match result_string with
  | [] => mret tt
  | _ :: _ =>
      s ← get;
      if _is_ignored_single_word (m_config s) result_string then mret tt
      else check_commands result_string
  end.

(** ** What the specification asks of a phrase *)

(** Lower-case: [s.lower() == s]. *)
Definition is_lower (s : str) : bool := str_eqb (lower s) s.

Definition no_leading_ws (s : str) : bool :=
  match s with
  | c :: _ => negb (isspace c)
  | [] => true
  end.

Definition no_trailing_ws (s : str) : bool := no_leading_ws (rev s).




(** The text has a bracketed span: "[", a non-empty body free of "]", "]". *)
Definition has_bracket_span (text : str) : Prop :=
  exists pre body post,
    text = pre ++ "["%char :: body ++ "]"%char :: post
    /\ body <> [] /\ ~ In "]"%char body.

(** The executor as [__init__] leaves it, on a console that shows every
    message. *)
Definition init (cfg : Config) : ProfileExecutor :=
  {| m_profile := None; commands_list := []; m_cmd_threads := ∅;
     threads := []; listening := false; m_stream := None;
     ptl_keyboard_listener := None; ptl_mouse_listener := None;
     recognizer := None; grammar_supported := false; m_config := cfg;
     commands_file := []; performed := []; warnings := [];
     stdout_encodes_symbols := true |}.

(** The executor never listens, nor holds a stream, without a recognizer:
    [set_enable_listening] and [_init_stream] return at once when
    [self.recognizer is None], and nothing resets the recognizer. *)
Definition consistent (s : ProfileExecutor) : bool :=
  implb (listening s || bool_decide (is_Some (m_stream s)))
        (bool_decide (is_Some (recognizer s))).

(** The table [set_profile] builds from a profile. *)
Definition table_of (p_profile : option Profile) : list str :=
  match p_profile with
  | None => []
  | Some p => sort_len_reverse (profile_phrases p)
  end.

(** When [set_profile] returns normally: without a recognizer it raises as
    soon as it has a final result to flush or a stream to restart. *)
Definition can_rebuild (p_profile : option Profile) (s : ProfileExecutor) : bool :=
  match recognizer s, m_stream s, p_profile with
  | Some _, _, _ => true
  | None, None, None => true
  | None, _, _ => negb (listening s)
  end.

(** ** Endpoint detection: [_configure_endpoint_detection]

    The file system is reduced to the one file the method touches,
    [conf/model.conf] under the model's folder: [None] when it does not
    exist, its text otherwise.  The method maps the file before the call to
    the file after it. *)

Module Endpoint.

Definition LF : ascii := "010"%char.
Definition CR : ascii := "013"%char.

(** What [open(path, 'r')] hands over: "\r\n" and "\r" are read as "\n". *)
Fixpoint universal_newlines (s : str) : str :=
  match s with
  | [] => []
  | c :: r =>
      if Ascii.eqb c CR then
        LF :: match r with
              | c' :: r' =>
                  if Ascii.eqb c' LF then universal_newlines r'
                  else universal_newlines r
              | [] => []
              end
      else c :: universal_newlines r
  end.

(** The lines of a text, each with its line end. *)
Fixpoint lines_keepends (s : str) : list str :=
  match s with
  | [] => []
  | c :: r =>
      if Ascii.eqb c LF then [c] :: lines_keepends r
      else match lines_keepends r with
           | l :: ls => (c :: l) :: ls
           | [] => [[c]]
           end
  end.

(** [f.readlines()] *)
Definition readlines (text : str) : list str :=
  lines_keepends (universal_newlines text).

(** [f.writelines(lines)], where the line separator is "\n". *)
Definition writelines (lines : list str) : str := concat lines.

Definition marker_key : str := py "LinVAM-configured".

Definition marker_line : str :=
  py "# LinVAM-configured for faster endpoint detection" ++ [LF].

Definition rule2_key : str := py "endpoint.rule2.min-trailing-silence".
Definition rule3_key : str := py "endpoint.rule3.min-trailing-silence".
Definition rule4_key : str := py "endpoint.rule4.min-trailing-silence".

Definition rule2_line : str := py "--endpoint.rule2.min-trailing-silence=0.3" ++ [LF].
Definition rule3_line : str := py "--endpoint.rule3.min-trailing-silence=0.6" ++ [LF].
Definition rule4_line : str := py "--endpoint.rule4.min-trailing-silence=0.9" ++ [LF].

(** The loop [for i, line in enumerate(lines)]: the lines after it, and
    [modified]. *)
Fixpoint tune_lines (lines : list str) : list str * bool :=
  match lines with
  | [] => ([], false)
  | line :: rest =>
      let '(rest', modified) := tune_lines rest in
      if contains rule2_key line then (rule2_line :: rest', true)
      else if contains rule3_key line then (rule3_line :: rest', true)
      else if contains rule4_key line then (rule4_line :: rest', true)
      else (line :: rest', modified)
  end.

Definition _configure_endpoint_detection (conf : option str) : option str :=
  match conf with
  | None => None
  | Some text =>
      let lines := readlines text in
      if existsb (contains marker_key) lines then Some text
      else
        let '(lines', modified) := tune_lines lines in
        if modified then Some (writelines (lines' ++ [marker_line]))
        else Some text
  end.

(** Whether the method rewrote the file: it then prints its message. *)
Definition modified (conf : option str) : bool :=
  match conf with
  | None => false
  | Some text =>
      let lines := readlines text in
      if existsb (contains marker_key) lines then false
      else snd (tune_lines lines)
  end.

(** The line a rule line is replaced by. *)
Definition tuned (line : str) : str :=
  if contains rule2_key line then rule2_line
  else if contains rule3_key line then rule3_line
  else if contains rule4_key line then rule4_line
  else line.

Definition is_rule_line (line : str) : bool :=
  contains rule2_key line || contains rule3_key line || contains rule4_key line.

(** A line that ends with its line feed and holds no other. *)
Definition terminated (line : str) : Prop :=
  exists body, line = body ++ [LF] /\ ~ In LF body.

End Endpoint.

(** ** The language: [set_language]

    What the helper functions of [linvam.util], the file system and the
    engine answer for a language is the argument of [set_language]: no
    language code; a model path, with its [conf/model.conf] ([None] when
    the file is missing) and what [KaldiRecognizer(Model(model_path=...))]
    gives; or no model path, and what [KaldiRecognizer(Model(lang=...))]
    gives. *)

(** [conf/model.conf], by what the file system answers: what reading the
    file gives, its text or an exception, and what writing it raises
    ([None] when it is written). *)
Record ConfFile := {
  conf_text : result str;
  conf_write_error : option exn
}.

(** The recognizer the engine builds, and what [SetWords(True)] raises on
    it ([None] when it returns). *)
Record Built := {
  built_recognizer : KaldiRecognizer;
  SetWords_error : option exn
}.

Inductive Language :=
| Unsupported
| Found (conf : option ConfFile) (engine : result Built)
| AutoDetect (engine : result Built).

(** A call that returns a value or raises. *)
Definition returned {A} (r : result A) : M A :=
  match r with
  | Ok a => mret a
  | Raise e => raise e
  end.

(** A call that raises or returns nothing. *)
Definition raising (e : option exn) : M unit :=
  match e with
  | Some e => raise e
  | None => mret tt
  end.

(** [_configure_endpoint_detection], as the executor lives it: the file
    is read and, when a rule line is there and the marker is not, written
    back as [Endpoint._configure_endpoint_detection] makes it; the write
    is followed by a message that starts with the check mark. *)
Definition _configure_endpoint_detection (conf : option ConfFile) : M unit :=
  match conf with
  | None => mret tt
  | Some file =>
      text ← returned (conf_text file);
      if Endpoint.modified (Some text) then
        raising (conf_write_error file);;
        print_symbols check_mark
      else mret tt
  end.

(** The end of [set_language], once the recognizer is built. *)
Definition use_recognizer (b : Built) : M unit :=
  modify (set_recognizer (Some (built_recognizer b)));;
  raising (SetWords_error b);;
  s ← get;
  match commands_list s with
  | [] => mret tt
  | _ :: _ => _apply_grammar_constraint
  end.

Definition set_language (language : Language) : M unit :=
  _stop;;
  match language with
  | Unsupported => mret tt
  | Found conf engine =>
      _configure_endpoint_detection conf;;
      b ← returned engine;
      use_recognizer b
  | AutoDetect engine =>
      b ← returned engine;
      use_recognizer b
  end.

(** ** Sample data *)

Module Sample.

Definition config : Config := {| DEBUG := false; IGNORED_SINGLE_WORDS := None |}.

(** The language whose model is auto-detected and gives this recognizer. *)
Definition installed (r : KaldiRecognizer) : Language :=
  AutoDetect (Ok {| built_recognizer := r; SetWords_error := None |}).

(** A model with a dynamic graph: it takes any grammar. *)
Definition lgraph_model : KaldiRecognizer :=
  {| has_SetGrammar := true;
     SetGrammar_error := fun _ => None;
     grammar := None |}.




(** The executor once a language is set. *)
Definition ready : ProfileExecutor :=
  exec (set_language (installed lgraph_model)) (init config).

Definition press (key_events : string) : Action := KEY_ACTION (py key_events) 0.

Definition go : Command :=
  {| name := py "go"; actions := [press "17:1"; press "17:0"];
     repeat := 1; async := false |}.

Definition go_home : Command :=
  {| name := py "go home"; actions := [press "35:1"; press "35:0"];
     repeat := 1; async := false |}.

Definition menu : Command :=
  {| name := py "Open [the, a] menu [now], Power up [the ship, the engines]";
     actions := [press "50:1"; press "50:0"]; repeat := 1; async := false |}.

Definition travel : Profile :=
  {| profile_name := py "travel"; commands := [go; go_home] |}.

Definition travel' : Profile :=
  {| profile_name := py "travel"; commands := [go_home; go] |}.

Definition cockpit : Profile :=
  {| profile_name := py "cockpit"; commands := [go; menu; go_home] |}.

(** Two alternatives and two commands that yield the same phrase. *)
Definition fire : Command :=
  {| name := py "fire [now, now]"; actions := [press "57:1"; press "57:0"];
     repeat := 1; async := false |}.

Definition fire_again : Command :=
  {| name := py "Fire"; actions := [press "28:1"; press "28:0"];
     repeat := 1; async := false |}.

Definition twins : Profile :=
  {| profile_name := py "twins"; commands := [fire; fire_again] |}.



(** An asynchronous and a synchronous command with [repeat] at zero. *)
Definition spin : Command :=
  {| name := py "spin"; actions := [press "30:1"; press "30:0"];
     repeat := 0; async := true |}.

Definition tap : Command :=
  {| name := py "tap"; actions := [press "30:1"; press "30:0"];
     repeat := 0; async := false |}.

Definition drills : Profile :=
  {| profile_name := py "drills"; commands := [spin; tap] |}.





(** A listening executor: the stream is open and started. *)
Definition on_air : ProfileExecutor :=
  set_listening true (set_m_stream (Some {| active := true |}) ready).

End Sample.


(** ** Notions used by the statements *)

Definition segment_ok (P : ascii -> Prop) (seg : segment) : Prop :=
  match seg with
  | fixed content => Forall P content
  | optional alternatives => Forall (Forall P) alternatives
  end.

Definition choice_ok (P : ascii -> Prop) (choice : option str) : Prop :=
  match choice with
  | Some c => Forall P c
  | None => True
  end.


Definition with_grammar (r : KaldiRecognizer) (g : list str) : KaldiRecognizer :=
  {| has_SetGrammar := has_SetGrammar r;
     SetGrammar_error := SetGrammar_error r;
     grammar := Some g |}.

Definition warned (reason : str) (s : ProfileExecutor) : ProfileExecutor :=
  set_warnings (warnings s ++ [reason]) (set_grammar_supported false s).

(** The hooks [_stop_ptl_listener] leaves: a hook whose removal raises
    stays, and so does the mouse hook when removing the keyboard hook
    raised. *)
Definition left_of (hk : Hook) : option Hook :=
  match unhook_error hk with
  | Some _ => Some hk
  | None => None
  end.

Definition keyboard_left (s : ProfileExecutor) : option Hook :=
  match ptl_keyboard_listener s with
  | Some hk => left_of hk
  | None => None
  end.

Definition mouse_left (s : ProfileExecutor) : option Hook :=
  match keyboard_left s with
  | Some _ => ptl_mouse_listener s
  | None =>
      match ptl_mouse_listener s with
      | Some hk => left_of hk
      | None => None
      end
  end.

Definition unhooked (s : ProfileExecutor) : ProfileExecutor :=
  set_ptl_listeners (keyboard_left s) (mouse_left s) s.

(** The executor after [_apply_grammar_constraint], case by case. *)
Definition grammar_applied (s : ProfileExecutor) : ProfileExecutor :=
  match recognizer s, commands_list s with
  | Some r, _ :: _ =>
      if has_SetGrammar r then
        match SetGrammar_error r (commands_list s) with
        | None =>
            let applied :=
              set_grammar_supported true
                (set_recognizer (Some (with_grammar r (commands_list s))) s) in
            if stdout_encodes_symbols s then applied
            else warned (unicode_error warning_sign) applied
        | Some (AttributeError msg) =>
            warned (py "SetGrammar method not available: " ++ msg) s
        | Some (OtherError msg) => warned msg s
        end
      else warned (py "SetGrammar method not available in this VOSK version") s
  | _, _ => s
  end.

Definition longer_first (a b : str) : Prop := length b <= length a.

(** The phrase [check_commands] detects: the first of the table contained
    in the transcript. *)
Definition first_match (cl : list str) (result_string : str) : option str :=
  find (fun command => contains command result_string) cl.

(** The number of combinations the brackets offer: each bracket counts for
    its omission and for each of its alternatives. *)
Fixpoint choice_count (segs : list segment) : nat :=
  match segs with
  | [] => 1
  | fixed _ :: r => choice_count r
  | optional alternatives :: r => (1 + length alternatives) * choice_count r
  end.

Definition has_length (n : nat) (x : str) : bool := length x =? n.

(** A match lies where its span is: the text between [start()] and [end()]
    is the group between its two brackets. *)
Definition located (text : str) (m : Match) : Prop :=
  slice text (m_start m) (m_end m) = "["%char :: m_group1 m ++ ["]"%char]
  /\ m_group1 m <> [] /\ ~ In "]"%char (m_group1 m).

(** [n] copies of the action sequence, one after the other. *)
Definition times (n : nat) (acts : list Action) : list Action :=
  concat (replicate n acts).


(** ** Notions used by the further properties *)

(** Every reference of the registry points to a thread object. *)
Definition registry_ok (s : ProfileExecutor) : Prop :=
  forall k t, m_cmd_threads s !! k = Some t -> t < length (threads s).

(** The command owns the phrase: one of its expansions, lower-cased, is
    the phrase (the test of [_get_command_for_executing]). *)
Definition owns (cmd_name : str) (w_command : Command) : bool :=
  existsb (fun variation => str_eqb (lower variation) cmd_name)
          (command_phrases w_command).

(** The thread object [_do_command] creates for an asynchronous command. *)
Definition thread_of (w_command : Command) : CommandThread :=
  {| m_actions := actions w_command;
     m_repeat := repeat w_command;
     m_stop := false |}.

(** ** The session: the executor among its collaborators

    The methods below read or write more than the fields of
    [ProfileExecutor] above: the push-to-listen hotkey kept in [ptl_key],
    the flag [grammar_warning_shown] of the debug callback, the handle of
    the [ydotoold] daemon, the sound player, and the settings the helper
    functions of [linvam.util] return ([is_push_to_listen],
    [get_push_to_listen_hotkey]) together with [Config.USE_YDOTOOL].  What
    the methods ask of the operating system is recorded: the input events
    injected, the command lines run and the processes killed. *)

(** The hotkey object [get_push_to_listen_hotkey] returns, [code] and
    [button] as [int(...)] and [str(...)] read them. *)
Record Hotkey := {
  hk_name : str;
  is_mouse_key : bool;
  hk_code : Z;
  hk_button : str
}.

(** What the surroundings answer: [Config.USE_YDOTOOL], the two helper
    functions of [linvam.util], and what [keyboard.hook] and [mouse.hook]
    return when a handler is installed. *)
Record Settings := {
  USE_YDOTOOL : bool;
  is_push_to_listen : bool;
  get_push_to_listen_hotkey : option Hotkey;
  keyboard_handle : Hook;
  mouse_handle : Hook
}.

(** What the direct back-end injects through the [mouse] and [keyboard]
    libraries. *)
Inductive InputEvent :=
| MousePress (button : str)
| MouseRelease (button : str)
| MouseMoveTo (x y : Z)
| MouseMoveRelative (x y : Z)
| MouseWheel (delta : Z).

Record Session := {
  executor : ProfileExecutor;
  settings : Settings;
  ptl_key : option Hotkey;
  grammar_warning_shown : bool;
  ydotoold : option nat;
  sound_playing : option str;
  injected : list InputEvent;
  shell : list str;
  killed : list nat
}.

Definition set_executor v h :=
  {| executor := v;
     settings := settings h;
     ptl_key := ptl_key h;
     grammar_warning_shown := grammar_warning_shown h;
     ydotoold := ydotoold h;
     sound_playing := sound_playing h;
     injected := injected h;
     shell := shell h;
     killed := killed h |}.

Definition set_ptl_key v h :=
  {| executor := executor h;
     settings := settings h;
     ptl_key := v;
     grammar_warning_shown := grammar_warning_shown h;
     ydotoold := ydotoold h;
     sound_playing := sound_playing h;
     injected := injected h;
     shell := shell h;
     killed := killed h |}.


Definition set_ydotoold v h :=
  {| executor := executor h;
     settings := settings h;
     ptl_key := ptl_key h;
     grammar_warning_shown := grammar_warning_shown h;
     ydotoold := v;
     sound_playing := sound_playing h;
     injected := injected h;
     shell := shell h;
     killed := killed h |}.

Definition set_sound_playing v h :=
  {| executor := executor h;
     settings := settings h;
     ptl_key := ptl_key h;
     grammar_warning_shown := grammar_warning_shown h;
     ydotoold := ydotoold h;
     sound_playing := v;
     injected := injected h;
     shell := shell h;
     killed := killed h |}.

Definition set_injected v h :=
  {| executor := executor h;
     settings := settings h;
     ptl_key := ptl_key h;
     grammar_warning_shown := grammar_warning_shown h;
     ydotoold := ydotoold h;
     sound_playing := sound_playing h;
     injected := v;
     shell := shell h;
     killed := killed h |}.

Definition set_shell v h :=
  {| executor := executor h;
     settings := settings h;
     ptl_key := ptl_key h;
     grammar_warning_shown := grammar_warning_shown h;
     ydotoold := ydotoold h;
     sound_playing := sound_playing h;
     injected := injected h;
     shell := v;
     killed := killed h |}.

Definition set_killed v h :=
  {| executor := executor h;
     settings := settings h;
     ptl_key := ptl_key h;
     grammar_warning_shown := grammar_warning_shown h;
     ydotoold := ydotoold h;
     sound_playing := sound_playing h;
     injected := injected h;
     shell := shell h;
     killed := v |}.

(** A method of the executor that reaches beyond [ProfileExecutor]. *)
Definition SM (A : Type) : Type := Session -> result A * Session.

#[global] Instance SM_ret : MRet SM := fun A a h => (Ok a, h).

#[global] Instance SM_bind : MBind SM := fun A B k m h =>
  match m h with
  | (Ok a, h') => k a h'
  | (Raise e, h') => (Raise e, h')
  end.

Definition raiseS {A} (e : exn) : SM A := fun h => (Raise e, h).

Definition getS : SM Session := fun h => (Ok h, h).

Definition modifyS (f : Session -> Session) : SM unit := fun h => (Ok tt, f h).

(** A method that stays within [ProfileExecutor], run in the session. *)
Definition lift {A} (m : M A) : SM A := fun h =>
  let '(r, s') := m (executor h) in (r, set_executor s' h).

Definition execS {A} (m : SM A) (h : Session) : Session := snd (m h).

(** *** Listening: [set_enable_listening] and the hotkey handlers *)

Definition _start_ptl (ptl_hotkey : Hotkey) : SM unit :=
  modifyS (set_ptl_key (Some ptl_hotkey));;
  h ← getS;
  if is_mouse_key ptl_hotkey then
    lift (modify (fun s =>
      set_ptl_listeners (ptl_keyboard_listener s)
        (Some (mouse_handle (settings h))) s))
  else
    lift (modify (fun s =>
      set_ptl_listeners (Some (keyboard_handle (settings h)))
        (ptl_mouse_listener s) s)).

Definition set_enable_listening (p_enable : bool) : SM unit :=
  h ← getS;
  match recognizer (executor h) with
  | None => mret tt
  | Some _ =>
      if negb (listening (executor h)) && p_enable then
        let ptl_hotkey := get_push_to_listen_hotkey (settings h) in
        match (if is_push_to_listen (settings h) then ptl_hotkey else None) with
        | Some hotkey =>
            lift _init_stream;;
            lift (modify (set_listening true));;
            _start_ptl hotkey
        | None =>
            lift _start_stream;;
            lift (modify (set_listening true))
        end
      else if listening (executor h) && negb p_enable then lift _stop
      else mret tt
  end.


(** [event.event_type] of the [mouse] and [keyboard] libraries. *)
Inductive event_type := DOWN | UP | DOUBLE.

Definition event_type_eqb (a b : event_type) : bool :=
  match a, b with
  | DOWN, DOWN | UP, UP | DOUBLE, DOUBLE => true
  | _, _ => false
  end.

Inductive MouseEvent :=
| ButtonEvent (me_event_type : event_type) (button : str)
| MoveEvent
| WheelEvent.

Record KeyboardEvent := {
  ke_name : str;
  scan_code : Z;
  ke_event_type : event_type
}.

(** [self.m_stream], about to have an attribute read. *)
Definition the_stream : M RawInputStream :=
  s ← get;
  match m_stream s with
  | Some st => mret st
  | None => raise (AttributeError (py "'NoneType' object has no attribute 'active'"))
  end.

Definition the_ptl_key : SM Hotkey :=
  h ← getS;
  match ptl_key h with
  | Some k => mret k
  | None => raiseS (AttributeError (py "'NoneType' object has no attribute"))
  end.

(** [self.m_stream.start()], [self.m_stream.stop()] *)
Definition stream_set_active (b : bool) : M unit :=
  _ ← the_stream;
  modify (set_m_stream (Some {| active := b |})).

Definition _stop_ptl_stream : M unit :=
  stream_set_active false;;
  _ ← the_recognizer;   (* self.recognizer.Result() *)
  mret tt.

(** The body shared by the two handlers once the event is the hotkey's. *)
Definition on_hotkey (et : event_type) : M unit :=
  match et with
  | DOWN =>
      st ← the_stream;
      if negb (active st) then stream_set_active true else mret tt
  | UP =>
      st ← the_stream;
      if active st then _stop_ptl_stream else mret tt
  | DOUBLE => mret tt
  end.

Definition _on_mouse_key_event (event : MouseEvent) : SM unit :=
  match event with
  | ButtonEvent et button =>
      k ← the_ptl_key;
      if str_eqb button (hk_button k) then lift (on_hotkey et) else mret tt
  | _ => mret tt
  end.

Definition _on_keyboard_key_event (event : KeyboardEvent) : SM unit :=
  if str_eqb (ke_name event) (py "unknown") then mret tt
  else
    k ← the_ptl_key;
    if (scan_code event =? hk_code k)%Z then lift (on_hotkey (ke_event_type event))
    else mret tt.

(** *** Shutdown *)

(** The loop [for cmd_name in list(self.m_cmd_threads.keys())]. *)
Fixpoint stop_all (names : list str) : M unit :=
  match names with
  | [] => mret tt
  | cmd_name :: rest => _stop_command cmd_name;; stop_all rest
  end.

(** [shutdown].  The names are taken in the order the map lists them; the
    outcome does not depend on it ([stop_all_spec]).  [kill_fails] tells
    whether [os.kill] raises [OSError], which the method swallows. *)
Definition shutdown (kill_fails : bool) : SM unit :=
  h ← getS;
  lift (stop_all (map fst (map_to_list (m_cmd_threads (executor h)))));;
  modifyS (set_sound_playing None);;   (* self.m_sound.stop() *)
  lift _stop;;
  h ← getS;
  match ydotoold h with
  | None => mret tt
  | Some pid =>
      if kill_fails then mret tt
      else modifyS (fun h => set_ydotoold None (set_killed (killed h ++ [pid]) h))
  end.

(** *** The audio callbacks *)






(** *** The mouse back-ends *)

(** [str(n)] for an integer. *)
Definition str_of_int (n : Z) : str :=
  list_ascii_of_string (NilZero.string_of_int (Z.to_int n)).

Section Ydotool.

(** [YDOTOOLD_SOCKET_PATH] of [linvam.util]. *)
Variable YDOTOOLD_SOCKET_PATH : str.

Definition _execute_ydotool_command (command : str) : SM unit :=
  h ← getS;
  match ydotoold h with
  | Some _ =>
      modifyS (fun h =>
        set_shell
          (shell h ++ [py "env YDOTOOL_SOCKET=" ++ YDOTOOLD_SOCKET_PATH
                       ++ py " ydotool " ++ command]) h)
  | None => mret tt
  end.

Definition click_type_code (w_type : Z) : str :=
  if (w_type =? 1)%Z then py "4"
  else if (w_type =? 0)%Z then py "8"
  else if (w_type =? 10)%Z then py "C"
  else if (w_type =? 11)%Z then py "C"
  else py "0".

Definition click_button_code (w_button : str) : str :=
  if str_eqb w_button (py "left") then py "0"
  else if str_eqb w_button (py "middle") then py "2"
  else if str_eqb w_button (py "right") then py "1"
  else py "0".

Definition _click_mouse_key_ydotool (w_button : str) (w_type : Z) : SM unit :=
  let click_command :=
    py "0x" ++ click_type_code w_type ++ click_button_code w_button in
  let args := if (w_type =? 11)%Z then py "--repeat 2 " else [] in
  _execute_ydotool_command (py "click --next-delay 100 " ++ args ++ click_command).

Definition inject (events : list InputEvent) : SM unit :=
  modifyS (fun h => set_injected (injected h ++ events) h).

(** [_click_mouse_key_mouse].  The last case builds its message with
    ["Unknown mouse type " + w_type], a [str] and an [int]: a
    [TypeError]. *)
Definition _click_mouse_key_mouse (w_button : str) (w_type : Z) : SM unit :=
  if (w_type =? 1)%Z then inject [MousePress w_button]
  else if (w_type =? 0)%Z then inject [MouseRelease w_button]
  else if (w_type =? 10)%Z then
    inject [MousePress w_button; MouseRelease w_button]
  else if (w_type =? 11)%Z then
    inject [MousePress w_button; MouseRelease w_button;
            MousePress w_button; MouseRelease w_button]
  else raiseS (OtherError (py "TypeError: can only concatenate str to str")).

Definition _click_mouse_key (w_button : str) (w_type : Z) : SM unit :=
  h ← getS;
  if USE_YDOTOOL (settings h) then _click_mouse_key_ydotool w_button w_type
  else _click_mouse_key_mouse w_button w_type.

Definition _move_mouse_mouse (x y : Z) (absolute : bool) : SM unit :=
  if absolute then inject [MouseMoveTo x y] else inject [MouseMoveRelative x y].

Definition _move_mouse_ydotool (x y : Z) (absolute : bool) : SM unit :=
  let command :=
    if absolute
    then py "mousemove --absolute -x " ++ str_of_int x ++ py " -y " ++ str_of_int y
    else py "mousemove -x " ++ str_of_int x ++ py " -y " ++ str_of_int y in
  _execute_ydotool_command command.

Definition _move_mouse (x y : Z) (absolute : bool) : SM unit :=
  h ← getS;
  if USE_YDOTOOL (settings h) then _move_mouse_ydotool x y absolute
  else _move_mouse_mouse x y absolute.

Definition _scroll_mouse_mouse (delta : Z) : SM unit := inject [MouseWheel delta].

Definition _scroll_mouse_ydotool (delta : Z) : SM unit :=
  _execute_ydotool_command (py "mousemove --wheel -x 0 -y " ++ str_of_int delta).

Definition _scroll_mouse (delta : Z) : SM unit :=
  h ← getS;
  if USE_YDOTOOL (settings h) then _scroll_mouse_ydotool delta
  else _scroll_mouse_mouse delta.

End Ydotool.

(** *** Notions used by the properties of the session *)

(** The hook of the [keyboard] library calls the handler on each event. *)
Fixpoint keyboard_hook (events : list KeyboardEvent) : SM unit :=
  match events with
  | [] => mret tt
  | e :: r => _on_keyboard_key_event e;; keyboard_hook r
  end.

(** The hook of the [mouse] library calls the handler on each event. *)
Fixpoint mouse_hook (events : list MouseEvent) : SM unit :=
  match events with
  | [] => mret tt
  | e :: r => _on_mouse_key_event e;; mouse_hook r
  end.

(** Whether the hotkey is held after an event: pressed by [DOWN],
    released by [UP]. *)
Definition held_after (et : event_type) (held : bool) : bool :=
  match et with
  | DOWN => true
  | UP => false
  | DOUBLE => held
  end.

Definition is_hotkey_key (k : Hotkey) (e : KeyboardEvent) : bool :=
  negb (str_eqb (ke_name e) (py "unknown")) && (scan_code e =? hk_code k)%Z.

Definition key_held (k : Hotkey) (events : list KeyboardEvent) (held : bool) : bool :=
  foldl (fun held e =>
           if is_hotkey_key k e then held_after (ke_event_type e) held else held)
        held events.

Definition button_held (k : Hotkey) (events : list MouseEvent) (held : bool) : bool :=
  foldl (fun held e =>
           match e with
           | ButtonEvent et button =>
               if str_eqb button (hk_button k) then held_after et held else held
           | _ => held
           end)
        held events.

(** The executor is stopped: not listening, no stream, no hook. *)
Definition stopped (s : ProfileExecutor) : Prop :=
  listening s = false /\ m_stream s = None
  /\ ptl_keyboard_listener s = None /\ ptl_mouse_listener s = None.


(** The session with a stream that is started or not, nothing else
    changed. *)
Definition with_active (b : bool) (h : Session) : Session :=
  set_executor (set_m_stream (Some {| active := b |}) (executor h)) h.

Module SampleSession.

Definition f8 : Hotkey :=
  {| hk_name := py "f8"; is_mouse_key := false; hk_code := 66; hk_button := [] |}.

Definition side_button : Hotkey :=
  {| hk_name := py "x"; is_mouse_key := true; hk_code := 0; hk_button := py "x" |}.

(** A hook that comes out when asked, and one that does not. *)
Definition loose_hook : Hook := {| unhook_error := None |}.



Definition push_to_listen : Settings :=
  {| USE_YDOTOOL := false; is_push_to_listen := true;
     get_push_to_listen_hotkey := Some f8;
     keyboard_handle := loose_hook; mouse_handle := loose_hook |}.


Definition with_daemon : Settings :=
  {| USE_YDOTOOL := true; is_push_to_listen := false;
     get_push_to_listen_hotkey := None;
     keyboard_handle := loose_hook; mouse_handle := loose_hook |}.

(** The session around an executor, as [__init__] leaves it. *)
Definition start (st : Settings) (daemon : option nat) (s : ProfileExecutor)
  : Session :=
  {| executor := s; settings := st; ptl_key := None;
     grammar_warning_shown := false; ydotoold := daemon;
     sound_playing := None; injected := []; shell := []; killed := [] |}.

Definition key (code : Z) (et : event_type) : KeyboardEvent :=
  {| ke_name := py "key"; scan_code := code; ke_event_type := et |}.

End SampleSession.




(** The click types the two back-ends know: press, release, click and
    double click. *)
Definition known_click_type (w_type : Z) : bool :=
  existsb (Z.eqb w_type) [1; 0; 10; 11]%Z.

(** How many more times the events press the button than release it. *)
Fixpoint held_balance (w_button : str) (events : list InputEvent) : Z :=
  match events with
  | [] => 0
  | MousePress b :: r =>
      (if str_eqb b w_button then 1 else 0) + held_balance w_button r
  | MouseRelease b :: r =>
      held_balance w_button r - (if str_eqb b w_button then 1 else 0)
  | _ :: r => held_balance w_button r
  end%Z.

(** The event presses or releases the given button. *)
Definition on_button (w_button : str) (e : InputEvent) : Prop :=
  match e with
  | MousePress b | MouseRelease b => b = w_button
  | _ => False
  end.










(** *** Sounds: [_play_sound] *)

(** What the dict of an action holds under a key: nothing (the key is
    missing), [None], or a string. *)
Inductive entry :=
| Missing
| IsNone
| Str (v : str).

(** The dict of a sound action, reduced to the keys [_play_sound] reads;
    ['files'] holds a list of strings and ['file'] a string when they are
    there. *)
Record SoundAction := {
  sa_pack : entry;
  sa_cat : entry;
  sa_files : option (list str);
  sa_file : option str
}.

(** [random.choice(seq)] on a sequence that is not empty: the element at
    the index drawn, which is below [len(seq)]. *)
Definition choice (draw : nat) (seq : list str) : str :=
  nth (draw mod length seq) seq [].

(** [a + p_cmd_name[key]] for a string [a]. *)
Definition plus_entry (a : str) (key : str) (e : entry) : SM str :=
  match e with
  | Missing => raiseS (OtherError (py "KeyError: " ++ key))
  | IsNone => raiseS (OtherError (py "TypeError: can only concatenate str to str"))
  | Str v => mret (a ++ v)
  end.

Section Sounds.

(** What [get_voice_packs_folder_path()] of [linvam.util] returns. *)
Variable voice_packs_folder_path : str.

Definition _play_sound (draw : nat) (p_cmd_name : SoundAction) : SM unit :=
  match
    match sa_files p_cmd_name with
    | Some (f :: fs) => Some (choice draw (f :: fs))
    | _ => sa_file p_cmd_name
    end
  with
  | None => mret tt   (* "ERROR - No sound file specified in action" *)
  | Some selected_file =>
      a ← plus_entry voice_packs_folder_path (py "pack") (sa_pack p_cmd_name);
      b ← plus_entry (a ++ py "/") (py "cat") (sa_cat p_cmd_name);
      let sound_file := b ++ py "/" ++ selected_file in
      modifyS (set_sound_playing (Some sound_file))   (* self.m_sound.play *)
  end.

End Sounds.

(** The file the action names: one of ['files'] when the list is there
    and not empty, the one of ['file'] otherwise. *)
Definition names_file (a : SoundAction) (f : str) : Prop :=
  match sa_files a with
  | Some (x :: xs) => f ∈ x :: xs
  | _ => sa_file a = Some f
  end.





(** * Properties *)

(** ** Characters and the string primitives *)

Lemma lower_char_idem (c : ascii) : lower_char (lower_char c) = lower_char c.
Proof. destruct c as [[] [] [] [] [] [] [] []]; vm_compute; reflexivity. Qed.

Lemma ascii_eqb_true (a b : ascii) : Ascii.eqb a b = true <-> a = b.
Proof. apply Ascii.eqb_eq. Qed.

Lemma ascii_eqb_false (a b : ascii) : Ascii.eqb a b = false <-> a <> b.
Proof. apply Ascii.eqb_neq. Qed.

Lemma str_eqb_eq (a b : str) : str_eqb a b = true <-> a = b.
Proof. unfold str_eqb. apply bool_decide_eq_true. Qed.

Section Chars.
(** A property of characters that the primitives can only preserve:
    they drop characters, or insert the separator. *)
Variable P : ascii -> Prop.

Lemma lstrip_Forall s : Forall P s -> Forall P (lstrip s).
Proof.
  induction 1 as [|c r Hc Hr IH]; simpl; [constructor|].
  destruct (isspace c); [exact IH | constructor; assumption].
Qed.

Lemma rstrip_Forall s : Forall P s -> Forall P (rstrip s).
Proof.
  intros H. unfold rstrip.
  apply Forall_rev, lstrip_Forall, Forall_rev, H.
Qed.

Lemma strip_Forall s : Forall P s -> Forall P (strip s).
Proof. intros H. apply rstrip_Forall, lstrip_Forall, H. Qed.

Lemma split_Forall s : Forall P s -> Forall (Forall P) (split s).
Proof.
  induction 1 as [|c r Hc Hr IH]; simpl; [constructor|].
  destruct (isspace c); [exact IH|].
  destruct r as [|c' r']; [repeat constructor; assumption|].
  destruct (isspace c').
  - constructor; [repeat constructor; assumption | exact IH].
  - destruct (split (c' :: r')) as [|w ws].
    + repeat constructor; assumption.
    + inversion IH; subst. constructor; [constructor|]; assumption.
Qed.

Lemma join_Forall sep ws :
  Forall P sep -> Forall (Forall P) ws -> Forall P (join sep ws).
Proof.
  intros Hsep. induction 1 as [|w ws Hw Hws IH]; simpl; [constructor|].
  destruct ws as [|w' ws']; [assumption|].
  apply Forall_app; split; [assumption|].
  apply Forall_app; split; assumption.
Qed.

Lemma split_on_Forall sep s : Forall P s -> Forall (Forall P) (split_on sep s).
Proof.
  induction 1 as [|c r Hc Hr IH]; simpl; [repeat constructor|].
  destruct (Ascii.eqb c sep); [constructor; [constructor | exact IH]|].
  destruct (split_on sep r) as [|w ws]; [repeat constructor; assumption|].
  inversion IH; subst. constructor; [constructor|]; assumption.
Qed.

Lemma split_commas_Forall s : Forall P s -> Forall (Forall P) (split_commas s).
Proof.
  induction 1 as [|c r Hc Hr IH]; simpl; [repeat constructor|].
  destruct (Ascii.eqb c "," && negb (closes_bracket r));
    [constructor; [constructor | exact IH]|].
  destruct (split_commas r) as [|w ws]; [repeat constructor; assumption|].
  inversion IH; subst. constructor; [constructor|]; assumption.
Qed.

Lemma slice_Forall s a b : Forall P s -> Forall P (slice s a b).
Proof. intros H. unfold slice. apply Forall_take, Forall_drop, H. Qed.

Lemma class_run_Forall s : Forall P s -> Forall P (class_run s).
Proof.
  induction 1 as [|c r Hc Hr IH]; simpl; [constructor|].
  destruct (Ascii.eqb c "]"); constructor; assumption.
Qed.

Lemma match_here_Forall s g : Forall P s -> match_here s = Some g -> Forall P g.
Proof.
  unfold match_here. destruct s as [|c r]; [discriminate|].
  intros H. inversion H; subst.
  destruct (Ascii.eqb c "["); [|discriminate].
  pose proof (class_run_Forall r ltac:(assumption)) as Hg.
  destruct (class_run r) as [|g0 g']; [discriminate|].
  destruct (skipn _ r) as [|c' ?]; [discriminate|].
  destruct (Ascii.eqb c' "]"); [|discriminate].
  intros [= <-]. exact Hg.
Qed.

Lemma finditer_from_Forall s : forall pos skip,
  Forall P s -> Forall (fun m => Forall P (m_group1 m)) (finditer_from pos skip s).
Proof.
  induction s as [|c r IH]; intros pos skip H; simpl; [constructor|].
  assert (Hr : Forall P r) by (inversion H; assumption).
  destruct skip as [|k]; [|apply IH, Hr].
  destruct (match_here (c :: r)) as [g|] eqn:E; [|apply IH, Hr].
  constructor; [|apply IH, Hr].
  simpl. apply (match_here_Forall (c :: r)); assumption.
Qed.
End Chars.

Lemma product_In {A} (lists : list (list A)) (Q : A -> Prop) :
  Forall (Forall Q) lists -> Forall (Forall Q) (product lists).
Proof.
  induction 1 as [|l rest Hl Hrest IH]; simpl; [repeat constructor|].
  apply Forall_forall. intros comb Hin.
  apply list_elem_of_In, in_flat_map in Hin. destruct Hin as (x & Hx & Hc).
  apply in_map_iff in Hc. destruct Hc as (tl & <- & Htl).
  constructor.
  - rewrite Forall_forall in Hl. apply Hl, list_elem_of_In, Hx.
  - rewrite Forall_forall in IH. apply IH, list_elem_of_In, Htl.
Qed.

(** A combination has one entry per choice list, so the index used by
    [build_parts] stays in range. *)
Lemma product_length {A} (lists : list (list A)) comb :
  In comb (product lists) -> length comb = length lists.
Proof.
  revert comb. induction lists as [|l rest IH]; simpl; intros comb Hin.
  - destruct Hin as [<-|[]]. reflexivity.
  - apply in_flat_map in Hin. destruct Hin as (x & Hx & Hc).
    apply in_map_iff in Hc. destruct Hc as (tl & <- & Htl).
    simpl. f_equal. apply IH, Htl.
Qed.

Lemma product_cons_length {A} (l : list A) (rest : list (list A)) :
  length (product (l :: rest)) = length l * length (product rest).
Proof.
  simpl. induction l as [|x l IH]; [reflexivity|].
  simpl. rewrite length_app, length_map, IH. reflexivity.
Qed.

(** One combination per way of omitting each bracket or taking one of its
    alternatives. *)
Lemma product_choice_count segs :
  length (product (choice_lists segs)) = choice_count segs.
Proof.
  induction segs as [|seg r IH]; [reflexivity|].
  destruct seg as [content|alternatives]; [exact IH|].
  change (choice_lists (optional alternatives :: r))
    with ((None :: map Some alternatives) :: choice_lists r).
  rewrite product_cons_length, IH. simpl length. rewrite length_map.
  reflexivity.
Qed.

Section Expansion.
Variable P : ascii -> Prop.
Hypothesis P_space : P " "%char.

Lemma collect_segments_ok text matches : forall last_end,
  Forall P text ->
  Forall (fun m => Forall P (m_group1 m)) matches ->
  Forall (segment_ok P) (fst (collect_segments text matches last_end)).
Proof.
  induction matches as [|m ms IH]; intros last_end Ht Hm; simpl; [constructor|].
  inversion Hm as [|? ? Hg Hms]; subst.
  specialize (IH (m_end m) Ht Hms).
  destruct (collect_segments text ms (m_end m)) as [rest last]. simpl in *.
  assert (Hopt : segment_ok P (optional (map strip (split_on "," (m_group1 m))))).
  { simpl. apply Forall_fmap.
    eapply Forall_impl; [apply split_on_Forall, Hg|].
    intros w Hw. apply strip_Forall, Hw. }
  destruct (last_end <? m_start m); simpl.
  - constructor; [apply slice_Forall, Ht|]. constructor; assumption.
  - constructor; assumption.
Qed.

Lemma segments_of_ok text :
  Forall P text -> Forall (segment_ok P) (segments_of text (finditer text)).
Proof.
  intros Ht. unfold segments_of.
  pose proof (collect_segments_ok text (finditer text) 0 Ht
                (finditer_from_Forall P text 0 0 Ht)) as H.
  destruct (collect_segments text (finditer text) 0) as [segs last]. simpl in H.
  apply Forall_app; split; [exact H|].
  destruct (last <? length text); [|constructor].
  constructor; [apply slice_Forall, Ht | constructor].
Qed.

Lemma choice_lists_ok segs :
  Forall (segment_ok P) segs -> Forall (Forall (choice_ok P)) (choice_lists segs).
Proof.
  induction 1 as [|seg r Hseg Hr IH]; simpl; [constructor|].
  destruct seg as [content|alternatives]; [exact IH|].
  constructor; [|exact IH].
  constructor; [exact I|]. apply Forall_fmap.
  eapply Forall_impl; [exact Hseg|]. intros c Hc. exact Hc.
Qed.

Lemma build_parts_ok segs combination : forall optional_idx,
  Forall (segment_ok P) segs -> Forall (choice_ok P) combination ->
  Forall (Forall P) (build_parts segs combination optional_idx).
Proof.
  induction segs as [|seg r IH]; intros idx Hs Hc; simpl; [constructor|].
  inversion Hs as [|? ? Hseg Hr]; subst.
  destruct seg as [content|alternatives].
  - constructor; [exact Hseg | apply IH; assumption].
  - destruct (combination !! idx) as [[choice|]|] eqn:E; try (apply IH; assumption).
    constructor; [|apply IH; assumption].
    rewrite Forall_lookup in Hc. exact (Hc idx (Some choice) E).
Qed.

Lemma normalize_Forall v : Forall P v -> Forall P (normalize v).
Proof.
  intros H. unfold normalize. apply join_Forall.
  - repeat constructor. exact P_space.
  - apply split_Forall, H.
Qed.

Lemma variations_of_ok segs :
  Forall (segment_ok P) segs -> Forall (Forall P) (variations_of segs).
Proof.
  intros Hs. unfold variations_of.
  apply Forall_forall. intros v Hv.
  apply list_elem_of_In, filter_In in Hv. destruct Hv as [Hv _].
  apply in_map_iff in Hv. destruct Hv as (comb & <- & Hc).
  pose proof (product_In _ _ (choice_lists_ok segs Hs)) as Hall.
  rewrite Forall_forall in Hall.
  specialize (Hall comb (proj2 (list_elem_of_In _ _) Hc)).
  unfold variation_of.
  apply normalize_Forall, Forall_concat, build_parts_ok; assumption.
Qed.

(** Expansion invents no character: every phrase is made of characters
    of the text, and of the spaces that re-join its words. *)
Lemma expand_Forall text :
  Forall P text -> Forall (Forall P) (_expand_optional_brackets text).
Proof.
  intros Ht. unfold _expand_optional_brackets.
  destruct (finditer text) as [|m ms] eqn:E; [repeat constructor; exact Ht|].
  rewrite <- E.
  pose proof (variations_of_ok _ (segments_of_ok text Ht)) as H.
  destruct (variations_of (segments_of text (finditer text)));
    [repeat constructor; exact Ht | exact H].
Qed.
End Expansion.

(** ** Whitespace: words, [strip] and [normalize] *)








Lemma no_leading_ws_lstrip s : no_leading_ws (lstrip s) = true.
Proof.
  induction s as [|c r IH]; [reflexivity|].
  simpl. destruct (isspace c) eqn:E; [exact IH|]. simpl. now rewrite E.
Qed.

Lemma lstrip_app_nonspace l c :
  isspace c = false -> lstrip (l ++ [c]) = lstrip l ++ [c].
Proof.
  intros Hc. induction l as [|a l IH]; simpl; [now rewrite Hc|].
  destruct (isspace a); [exact IH | reflexivity].
Qed.

Lemma no_leading_ws_rstrip s : no_leading_ws s = true -> no_leading_ws (rstrip s) = true.
Proof.
  destruct s as [|c r]; [reflexivity|].
  simpl. intros Hc. apply negb_true_iff in Hc.
  unfold rstrip. simpl rev. rewrite lstrip_app_nonspace by exact Hc.
  rewrite rev_app_distr. simpl. now rewrite Hc.
Qed.

(** [strip] leaves no whitespace at either end. *)
Lemma strip_no_leading s : no_leading_ws (strip s) = true.
Proof. apply no_leading_ws_rstrip, no_leading_ws_lstrip. Qed.

Lemma strip_no_trailing s : no_trailing_ws (strip s) = true.
Proof.
  unfold no_trailing_ws, strip, rstrip. rewrite rev_involutive.
  apply no_leading_ws_lstrip.
Qed.

Lemma is_lower_Forall s :
  is_lower s = true <-> Forall (fun c => lower_char c = c) s.
Proof.
  unfold is_lower. rewrite str_eqb_eq. unfold lower.
  induction s as [|c r IH]; simpl.
  - split; [constructor | reflexivity].
  - split.
    + intros [= Hc Hr]. constructor; [exact Hc | apply IH, Hr].
    + intros H. inversion H; subst. f_equal; [assumption | apply IH; assumption].
Qed.

Lemma lower_is_lower s : is_lower (lower s) = true.
Proof.
  apply is_lower_Forall. unfold lower. apply Forall_fmap, Forall_forall.
  intros c _. simpl. apply lower_char_idem.
Qed.

(** ** The bracket pattern finds exactly the bracketed spans *)

Lemma class_run_no_close r : ~ In "]"%char (class_run r).
Proof.
  induction r as [|c r IH]; simpl; [tauto|].
  destruct (Ascii.eqb c "]") eqn:E; simpl; [tauto|].
  apply ascii_eqb_false in E. intros [H|H]; [congruence | exact (IH H)].
Qed.

Lemma class_run_prefix r : firstn (length (class_run r)) r = class_run r.
Proof.
  induction r as [|c r IH]; simpl; [reflexivity|].
  destruct (Ascii.eqb c "]"); simpl; [reflexivity | now rewrite IH].
Qed.

Lemma class_run_app g post :
  ~ In "]"%char g -> class_run (g ++ "]"%char :: post) = g.
Proof.
  induction g as [|c g IH]; simpl; intros H.
  - reflexivity.
  - destruct (Ascii.eqb c "]") eqn:E.
    + apply ascii_eqb_true in E. subst. tauto.
    + f_equal. apply IH. tauto.
Qed.

Lemma match_here_Some s g :
  match_here s = Some g <->
  exists post, s = "["%char :: g ++ "]"%char :: post
               /\ g <> [] /\ ~ In "]"%char g.
Proof.
  unfold match_here. split.
  - destruct s as [|c r]; [discriminate|].
    destruct (Ascii.eqb c "[") eqn:Ec; [|discriminate].
    apply ascii_eqb_true in Ec. subst c.
    pose proof (class_run_prefix r) as Hp.
    pose proof (class_run_no_close r) as Hn.
    destruct (class_run r) as [|g0 g'] eqn:Eg; [discriminate|].
    destruct (skipn (length (g0 :: g')) r) as [|c' rest] eqn:Es; [discriminate|].
    destruct (Ascii.eqb c' "]") eqn:Ec'; [|discriminate].
    apply ascii_eqb_true in Ec'. subst c'.
    intros [= <-]. exists rest. repeat split; [|discriminate | exact Hn].
    f_equal. rewrite <- Hp, <- Es. symmetry. apply firstn_skipn.
  - intros (post & -> & Hne & Hn).
    cbv beta iota zeta. rewrite Ascii.eqb_refl.
    rewrite class_run_app by exact Hn.
    destruct g as [|g0 g']; [congruence|].
    rewrite drop_app_length, Ascii.eqb_refl. reflexivity.
Qed.

Lemma finditer_from_nil s : forall pos,
  finditer_from pos 0 s = [] <->
  forall pre suf, s = pre ++ suf -> match_here suf = None.
Proof.
  induction s as [|c r IH]; intros pos; simpl.
  - split; [|reflexivity]. intros _ pre suf E.
    symmetry in E. apply app_eq_nil in E. destruct E as [_ ->]. reflexivity.
  - destruct (match_here (c :: r)) as [g|] eqn:E.
    + split; [discriminate|]. intros H.
      specialize (H [] (c :: r) eq_refl). congruence.
    + rewrite IH. split.
      * intros H pre suf Es. destruct pre as [|a pre]; simpl in Es.
        -- subst suf. exact E.
        -- injection Es as -> Es. eapply H, Es.
      * intros H pre suf Es. apply (H (c :: pre) suf). simpl. now rewrite Es.
Qed.

Lemma has_bracket_span_match text :
  has_bracket_span text <->
  exists pre suf g, text = pre ++ suf /\ match_here suf = Some g.
Proof.
  split.
  - intros (pre & body & post & -> & Hne & Hn).
    exists pre, ("["%char :: body ++ "]"%char :: post), body. split; [reflexivity|].
    apply match_here_Some. exists post. auto.
  - intros (pre & suf & g & -> & Hm).
    apply match_here_Some in Hm. destruct Hm as (post & -> & Hne & Hn).
    exists pre, g, post. auto.
Qed.

(** [finditer] finds a match exactly when the text has a bracketed span. *)
Lemma finditer_nil_iff text : finditer text = [] <-> ~ has_bracket_span text.
Proof.
  unfold finditer. rewrite finditer_from_nil, has_bracket_span_match. split.
  - intros H (pre & suf & g & E & Hm). rewrite (H pre suf E) in Hm. discriminate.
  - intros H pre suf E. destruct (match_here suf) as [g|] eqn:Hm; [|reflexivity].
    exfalso. apply H. exists pre, suf, g. auto.
Qed.

Lemma expand_no_match text :
  finditer text = [] -> _expand_optional_brackets text = [text].
Proof. intros E. unfold _expand_optional_brackets. now rewrite E. Qed.

Lemma expand_match text :
  finditer text <> [] ->
  _expand_optional_brackets text =
  match variations_of (segments_of text (finditer text)) with
  | [] => [text]
  | variations => variations
  end.
Proof.
  intros E. unfold _expand_optional_brackets.
  destruct (finditer text) as [|m ms]; [congruence | reflexivity].
Qed.

(** ** The grammar constraint *)

Lemma _apply_grammar_constraint_run s :
  _apply_grammar_constraint s = (Ok tt, grammar_applied s).
Proof.
  unfold _apply_grammar_constraint, grammar_applied.
  unfold mbind, M_bind, get at 1. cbv beta iota.
  destruct (recognizer s) as [r|] eqn:Er; [|reflexivity].
  destruct (commands_list s) as [|c cl] eqn:Ec; [reflexivity|].
  unfold try_except, SetGrammar, the_recognizer, mbind, M_bind, get, modify,
    _show_grammar_not_supported_warning, raise, mret, M_ret.
  unfold print_symbols, mbind, M_bind, get, raise, mret, M_ret.
  destruct (has_SetGrammar r) eqn:Eh; simpl; [|reflexivity].
  rewrite Er, Eh.
  destruct (SetGrammar_error r (c :: cl)) as [[msg|msg]|];
    unfold with_grammar; rewrite ?Eh; try reflexivity.
  simpl. destruct (stdout_encodes_symbols s); reflexivity.
Qed.

(** ** The hotkey hooks *)

Arguments _stop_ptl_listener : simpl never.

Lemma _stop_ptl_listener_run s : _stop_ptl_listener s = (Ok tt, unhooked s).
Proof.
  destruct s as [? ? ? ? ? ? kb ms ? ? ? ? ? ? ?].
  destruct kb as [[[ek|]]|], ms as [[[em|]]|]; reflexivity.
Qed.

Lemma unhooked_frame s :
  m_profile (unhooked s) = m_profile s
  /\ commands_list (unhooked s) = commands_list s
  /\ listening (unhooked s) = listening s
  /\ m_stream (unhooked s) = m_stream s
  /\ recognizer (unhooked s) = recognizer s.
Proof. repeat split. Qed.


Lemma grammar_applied_frame s :
  commands_list (grammar_applied s) = commands_list s
  /\ m_profile (grammar_applied s) = m_profile s
  /\ listening (grammar_applied s) = listening s
  /\ m_stream (grammar_applied s) = m_stream s
  /\ commands_file (grammar_applied s) = commands_file s
  /\ (is_Some (recognizer (grammar_applied s)) <-> is_Some (recognizer s)).
Proof.
  unfold grammar_applied.
  destruct (recognizer s) as [r|] eqn:Er; [|rewrite Er; tauto].
  destruct (commands_list s) as [|c cl] eqn:Ec; [rewrite Er, Ec; tauto|].
  destruct (has_SetGrammar r);
    [destruct (SetGrammar_error r (c :: cl)) as [[msg|msg]|];
     [| |destruct (stdout_encodes_symbols s)]|];
    simpl; rewrite ?Er, ?Ec; repeat split; eauto.
Qed.

(** ** [set_profile] *)

Lemma consistent_spec s :
  consistent s = true <->
  (listening s = true \/ is_Some (m_stream s) -> is_Some (recognizer s)).
Proof.
  unfold consistent.
  destruct (listening s); simpl;
    repeat case_bool_decide; simpl; intuition (discriminate || eauto).
Qed.

Lemma _start_stream_run s r :
  m_stream s = None -> recognizer s = Some r ->
  _start_stream s
  = (Ok tt, set_m_stream (Some {| active := true |})
              (set_m_stream (Some {| active := false |}) s)).
Proof.
  intros Es Er.
  unfold _start_stream, _init_stream, mbind, M_bind, get, modify, mret, M_ret.
  cbv beta iota. rewrite Es, Er. reflexivity.
Qed.

(** From a consistent executor [set_profile] returns normally, with the
    table of the profile in [commands_list], and leaves it consistent. *)
Lemma set_profile_run p_profile s :
  consistent s = true ->
  exists s', set_profile p_profile s = (Ok tt, s')
    /\ commands_list s' = table_of p_profile
    /\ m_profile s' = p_profile
    /\ consistent s' = true.
Proof.
  intros Hc. pose proof (proj1 (consistent_spec s) Hc) as Hi.
  unfold set_profile, _stop, the_recognizer.
  unfold mbind, M_bind, get, modify, mret, M_ret. cbv beta iota.
  destruct (listening s) eqn:El.
  - destruct Hi as [r Er]; [left; reflexivity|].
    destruct (m_stream s) as [st|] eqn:Es; simpl;
      rewrite ?_stop_ptl_listener_run; simpl; rewrite ?Er; simpl;
      (destruct p_profile as [p|]; simpl;
       [ rewrite _apply_grammar_constraint_run;
         match goal with |- context [grammar_applied ?x] => set (s1 := x) end;
         destruct (grammar_applied_frame s1) as (Fc & Fp & Fl & Fs & Ff & Fr);
         destruct (proj2 Fr) as [r' Er']; [simpl; rewrite Er; eauto|];
         rewrite (_start_stream_run _ r')
           by (rewrite ?Fs; subst s1; simpl; solve [reflexivity | assumption]);
         eexists; split; [reflexivity|]; simpl; rewrite Fc, Fp;
         repeat split; apply consistent_spec; simpl; intros _; eauto
       | eexists; split; [reflexivity|]; repeat split;
         apply consistent_spec; simpl; rewrite ?Er; eauto ]).
  - destruct p_profile as [p|]; simpl.
    + rewrite _apply_grammar_constraint_run.
      match goal with |- context [grammar_applied ?x] => set (s1 := x) end.
      destruct (grammar_applied_frame s1) as (Fc & Fp & Fl & Fs & Ff & Fr).
      eexists; split; [reflexivity|]. rewrite Fc, Fp. repeat split.
      apply consistent_spec. rewrite Fl, Fs, Fr. simpl. rewrite El. exact Hi.
    + eexists; split; [reflexivity|]. repeat split.
      apply consistent_spec. simpl. rewrite El. exact Hi.
Qed.

(** ** The sort of the table *)

Lemma insert_by_len_Permutation x l : Permutation (insert_by_len x l) (x :: l).
Proof.
  induction l as [|y r IH]; simpl; [reflexivity|].
  destruct (length y <=? length x); [reflexivity|].
  rewrite IH. apply perm_swap.
Qed.

Lemma sort_len_reverse_Permutation l : Permutation (sort_len_reverse l) l.
Proof.
  induction l as [|x r IH]; simpl; [reflexivity|].
  rewrite insert_by_len_Permutation. now constructor.
Qed.

Lemma insert_by_len_sorted x l :
  StronglySorted longer_first l -> StronglySorted longer_first (insert_by_len x l).
Proof.
  induction 1 as [|y r Hr IH Hy]; simpl; [repeat constructor|].
  destruct (length y <=? length x) eqn:E.
  - apply Nat.leb_le in E. constructor; [constructor; assumption|].
    constructor; [exact E|].
    eapply Forall_impl; [exact Hy|].
    intros z Hz. unfold longer_first in *. lia.
  - apply Nat.leb_gt in E. constructor; [exact IH|].
    apply Forall_forall. intros z Hz.
    apply list_elem_of_In in Hz.
    apply (Permutation_in _ (insert_by_len_Permutation x r)) in Hz.
    destruct Hz as [<-|Hz]; [unfold longer_first; lia|].
    rewrite Forall_forall in Hy. apply Hy, list_elem_of_In, Hz.
Qed.

(** The table runs from the longest phrase to the shortest. *)
Lemma sort_len_reverse_sorted l : StronglySorted longer_first (sort_len_reverse l).
Proof.
  induction l as [|x r IH]; simpl; [constructor|].
  apply insert_by_len_sorted, IH.
Qed.

(** Sorting an already sorted table changes nothing. *)
Lemma sort_len_reverse_fixed l :
  StronglySorted longer_first l -> sort_len_reverse l = l.
Proof.
  induction 1 as [|x r Hr IH Hx]; simpl; [reflexivity|].
  rewrite IH. destruct r as [|y r']; [reflexivity|].
  simpl. inversion Hx; subst. unfold longer_first in *.
  destruct (length y <=? length x) eqn:E; [reflexivity|].
  apply Nat.leb_gt in E. lia.
Qed.

(** ** Containment and the first match *)

Lemma startswith_spec s p : startswith s p = true <-> exists post, s = p ++ post.
Proof.
  revert s. induction p as [|a p IH]; intros s; simpl.
  - destruct s; simpl; split; eauto.
  - destruct s as [|b s]; simpl.
    + split; [discriminate | intros (post & E); discriminate].
    + rewrite andb_true_iff, ascii_eqb_true, IH. split.
      * intros (-> & post & ->). exists post. reflexivity.
      * intros (post & [= -> ->]). split; [reflexivity | exists post; reflexivity].
Qed.

(** [p in s] holds exactly when [p] is a substring of [s]. *)
Lemma contains_spec p s :
  contains p s = true <-> exists pre post, s = pre ++ p ++ post.
Proof.
  induction s as [|c r IH].
  - change (contains p []) with (startswith [] p || false).
    rewrite orb_false_r, startswith_spec. split.
    + intros (post & E). exists [], post. exact E.
    + intros (pre & post & E). symmetry in E.
      apply app_eq_nil in E. destruct E as [-> E].
      apply app_eq_nil in E. destruct E as [-> ->]. exists []. reflexivity.
  - change (contains p (c :: r)) with (startswith (c :: r) p || contains p r).
    rewrite orb_true_iff, startswith_spec, IH. split.
    + intros [(post & E)|(pre & post & E)].
      * exists [], post. exact E.
      * exists (c :: pre), post. simpl. now rewrite E.
    + intros (pre & post & E). destruct pre as [|a pre]; simpl in E.
      * left. exists post. exact E.
      * right. injection E as -> E. exists pre, post. exact E.
Qed.

Lemma check_commands_in_run cl result_string s :
  check_commands_in cl result_string s =
  match first_match cl result_string with
  | Some command => (_ ← the_recognizer; _do_command command) s
  | None => (Ok tt, s)
  end.
Proof.
  induction cl as [|command rest IH]; simpl; [reflexivity|].
  unfold first_match. simpl.
  destruct (contains command result_string); [reflexivity | exact IH].
Qed.

Lemma first_match_Some cl t ph :
  first_match cl t = Some ph ->
  exists before after,
    cl = before ++ ph :: after
    /\ contains ph t = true
    /\ Forall (fun q => contains q t = false) before.
Proof.
  unfold first_match. induction cl as [|c rest IH]; simpl; [discriminate|].
  destruct (contains c t) eqn:E.
  - intros [= <-]. exists [], rest. repeat split; [exact E | constructor].
  - intros H. destruct (IH H) as (before & after & -> & Hc & Hb).
    exists (c :: before), after. repeat split; [exact Hc|].
    constructor; assumption.
Qed.

Lemma first_match_None cl t :
  first_match cl t = None <-> Forall (fun q => contains q t = false) cl.
Proof.
  unfold first_match. induction cl as [|c rest IH]; simpl.
  - split; [constructor | reflexivity].
  - destruct (contains c t) eqn:E.
    + split; [discriminate|]. intros H. inversion H; congruence.
    + rewrite IH. split; [constructor; assumption|].
      intros H. inversion H; assumption.
Qed.

(** In a table sorted from longest to shortest the first match is a longest
    match. *)
Lemma first_match_longest cl t ph :
  StronglySorted longer_first cl ->
  first_match cl t = Some ph ->
  forall q, In q cl -> contains q t = true -> length q <= length ph.
Proof.
  intros Hs Hf q Hq Hc.
  destruct (first_match_Some _ _ _ Hf) as (before & after & -> & _ & Hb).
  apply in_app_or in Hq. destruct Hq as [Hq|[<-|Hq]].
  - rewrite Forall_forall in Hb.
    specialize (Hb q (proj2 (list_elem_of_In _ _) Hq)). congruence.
  - reflexivity.
  - apply StronglySorted_app_1_r in Hs. inversion Hs as [|? ? _ Hall]; subst.
    rewrite Forall_forall in Hall.
    exact (Hall q (proj2 (list_elem_of_In _ _) Hq)).
Qed.

Lemma _start_stream_raises s :
  m_stream s = None -> recognizer s = None ->
  exists e, _start_stream s = (Raise e, s).
Proof.
  intros Es Er.
  unfold _start_stream, _init_stream, mbind, M_bind, get, modify, mret, M_ret, raise.
  cbv beta iota. rewrite Es, Er, Es. eauto.
Qed.

Lemma set_profile_returned p_profile s :
  fst (set_profile p_profile s) = Ok tt <-> can_rebuild p_profile s = true.
Proof.
  unfold can_rebuild, set_profile, _stop, the_recognizer.
  unfold mbind, M_bind, get, modify, mret, M_ret, raise. cbv beta iota.
  destruct (listening s) eqn:El, (recognizer s) as [r|] eqn:Er,
    (m_stream s) as [st|] eqn:Es, p_profile as [p|]; simpl;
    rewrite ?_stop_ptl_listener_run; simpl; rewrite ?Er; simpl;
    try tauto; try (split; [discriminate | discriminate]);
    rewrite _apply_grammar_constraint_run;
    match goal with |- context [grammar_applied ?x] => set (s1 := x) end;
    destruct (grammar_applied_frame s1) as (Fc & Fp & Fl & Fs & Ff & Fr).
  all: try (destruct (proj2 Fr) as [r' Er']; [simpl; rewrite Er; eauto|];
     rewrite (_start_stream_run _ r')
           by (rewrite ?Fs; subst s1; simpl; solve [reflexivity | assumption]);
     simpl; tauto).
  all: try (simpl; tauto).
  destruct (_start_stream_raises (grammar_applied s1)) as [e Ee].
  - rewrite Fs. exact Es.
  - destruct (recognizer (grammar_applied s1)) eqn:E; [|reflexivity].
    destruct (proj1 Fr) as [x Hx]; [eauto|]. simpl in Hx. congruence.
  - rewrite Ee. simpl. split; discriminate.
Qed.

(** The invariant holds when the executor is created, and a consistent
    executor can always rebuild its table. *)
Lemma init_consistent cfg : consistent (init cfg) = true.
Proof. reflexivity. Qed.

Lemma consistent_can_rebuild p_profile s :
  consistent s = true -> can_rebuild p_profile s = true.
Proof.
  intros Hc. apply set_profile_returned.
  destruct (set_profile_run p_profile s Hc) as (s' & E & _). now rewrite E.
Qed.

(** What a returning [set_profile] leaves: the table of the profile, and an
    executor on which the same call returns again. *)
Lemma set_profile_result p_profile s :
  can_rebuild p_profile s = true ->
  commands_list (exec (set_profile p_profile) s) = table_of p_profile
  /\ m_profile (exec (set_profile p_profile) s) = p_profile
  /\ can_rebuild p_profile (exec (set_profile p_profile) s) = true.
Proof.
  unfold exec, can_rebuild at 1, set_profile, _stop, the_recognizer.
  unfold mbind, M_bind, get, modify, mret, M_ret, raise. cbv beta iota.
  destruct (listening s) eqn:El, (recognizer s) as [r|] eqn:Er,
    (m_stream s) as [st|] eqn:Es, p_profile as [p|]; simpl;
    rewrite ?_stop_ptl_listener_run; simpl; rewrite ?Er; simpl;
    try discriminate; intros _;
    try (unfold can_rebuild; simpl; rewrite ?Er, ?Es, ?El; simpl; tauto);
    rewrite _apply_grammar_constraint_run;
    match goal with |- context [grammar_applied ?x] => set (s1 := x) end;
    destruct (grammar_applied_frame s1) as (Fc & Fp & Fl & Fs & Ff & Fr).
  all: try (destruct (proj2 Fr) as [r' Er']; [simpl; rewrite Er; eauto|];
     rewrite (_start_stream_run _ r')
           by (rewrite ?Fs; subst s1; simpl; solve [reflexivity | assumption]);
     unfold can_rebuild; simpl; rewrite Fc, Fp, Er'; tauto).
  all: simpl; rewrite Fc, Fp; repeat split; unfold can_rebuild; rewrite Fl; simpl;
    rewrite El;
    destruct (recognizer (grammar_applied s1)), (m_stream (grammar_applied s1));
    reflexivity.
Qed.

(** ** The phrases of a table *)


Lemma in_profile_phrases p ph :
  In ph (profile_phrases p) <->
  exists w_command part,
    In w_command (commands p) /\ In part (command_parts w_command)
    /\ In ph (_expand_optional_brackets part).
Proof.
  unfold profile_phrases, command_phrases. rewrite in_flat_map. split.
  - intros (c & Hc & H). apply in_flat_map in H. destruct H as (part & Hp & H).
    exists c, part. auto.
  - intros (c & part & Hc & Hp & H). exists c. split; [exact Hc|].
    apply in_flat_map. exists part. auto.
Qed.

Lemma command_parts_lower w_command part :
  In part (command_parts w_command) ->
  is_lower part = true /\ no_leading_ws part = true /\ no_trailing_ws part = true.
Proof.
  unfold command_parts. intros H. apply in_map_iff in H.
  destruct H as (x & <- & Hx). repeat split.
  - apply is_lower_Forall, strip_Forall.
    assert (H : Forall (Forall (fun c => lower_char c = c))
                  (split_commas (lower (strip (name w_command))))).
    { apply split_commas_Forall, is_lower_Forall, lower_is_lower. }
    rewrite Forall_forall in H. apply H, list_elem_of_In, Hx.
  - apply strip_no_leading.
  - apply strip_no_trailing.
Qed.

Lemma table_of_In p ph :
  In ph (table_of (Some p)) <-> In ph (profile_phrases p).
Proof.
  simpl. split; apply Permutation_in;
    [|symmetry]; apply sort_len_reverse_Permutation.
Qed.

(** ** Running a command *)

Lemma set_performed_same s : set_performed (performed s) s = s.
Proof. destruct s. reflexivity. Qed.

Lemma set_performed_twice a b s : set_performed b (set_performed a s) = set_performed b s.
Proof. reflexivity. Qed.

(** One pass over the actions performs each of them, in order. *)
Lemma for_each_action_run acts s :
  for_each_action acts s = (Ok tt, set_performed (performed s ++ acts) s).
Proof.
  revert s. induction acts as [|a r IH]; intros s; simpl.
  - rewrite app_nil_r, set_performed_same. reflexivity.
  - unfold mbind, M_bind, do_action, modify. rewrite IH. simpl.
    rewrite <- app_assoc. reflexivity.
Qed.

(** The synchronous loop terminates, having run the sequence [w_repeat]
    times, and not at all when [w_repeat] is not positive. *)
Lemma run_inline_run acts w_repeat s :
  run_inline acts w_repeat s
  = (Ok tt, set_performed (performed s ++ times (Z.to_nat w_repeat) acts) s).
Proof.
  funelim (run_inline acts w_repeat); clear Heqcall.
  - unfold mbind, M_bind. rewrite for_each_action_run.
    rewrite (H tt s). simpl.
    replace (Z.to_nat w_repeat) with (S (Z.to_nat (w_repeat - 1))) by lia.
    unfold times. simpl. rewrite app_assoc. reflexivity.
  - replace (Z.to_nat w_repeat) with 0 by lia.
    unfold times. simpl. rewrite app_nil_r, set_performed_same. reflexivity.
Qed.

(** The thread's loop never runs its body when [m_repeat] is not positive,
    whatever it reads in [m_stop]. *)
Lemma thread_loop_not_positive acts stop_read k w_repeat :
  (w_repeat <= 0)%Z -> thread_loop acts stop_read k w_repeat = [].
Proof.
  intros Hw. funelim (thread_loop acts stop_read k w_repeat);
    solve [reflexivity | lia].
Qed.

(** Left alone, the thread runs the sequence [m_repeat] times. *)
Lemma thread_loop_unstopped acts k w_repeat :
  thread_loop acts (fun _ => false) k w_repeat = times (Z.to_nat w_repeat) acts.
Proof.
  remember (fun _ : nat => false) as stop_read eqn:Es.
  funelim (thread_loop acts stop_read k w_repeat); try discriminate;
    clear Heqcall.
  - rewrite H.
    replace (Z.to_nat w_repeat) with (S (Z.to_nat (w_repeat - 1))) by lia.
    reflexivity.
  - replace (Z.to_nat w_repeat) with 0 by lia. reflexivity.
Qed.

(** ** Further properties of the runner and of the sort *)

(** The thread stops at the first loop test that reads the flag set: it
    has then run the sequence once per earlier test, and no more than
    [w_repeat] times. *)
Lemma thread_loop_stopped acts stop_read j : forall k w_repeat,
  stop_read (k + j) = true ->
  (forall i, i < j -> stop_read (k + i) = false) ->
  thread_loop acts stop_read k w_repeat
  = times (Nat.min j (Z.to_nat w_repeat)) acts.
Proof.
  induction j as [|j IH]; intros k w_repeat Hstop Hrun;
    rewrite thread_loop_equation_1.
  - rewrite Nat.add_0_r in Hstop. rewrite Hstop. reflexivity.
  - pose proof (Hrun 0 ltac:(lia)) as H0. rewrite Nat.add_0_r in H0.
    rewrite H0. simp thread_loop.
    destruct (Z_lt_dec 0 w_repeat) as [Hpos|Hneg]; simp thread_loop.
    + rewrite <- thread_loop_equation_1, (IH (S k) (w_repeat - 1)%Z).
      * replace (Z.to_nat w_repeat) with (S (Z.to_nat (w_repeat - 1))) by lia.
        reflexivity.
      * rewrite <- Hstop. f_equal. lia.
      * intros i Hi. rewrite <- (Hrun (S i)) by lia. f_equal. lia.
    + replace (Z.to_nat w_repeat) with 0 by lia. reflexivity.
Qed.

Lemma insert_by_len_filter n x l :
  List.filter (has_length n) (insert_by_len x l)
  = List.filter (has_length n) (x :: l).
Proof.
  induction l as [|y r IH]; [reflexivity|].
  simpl insert_by_len. destruct (length y <=? length x) eqn:E; [reflexivity|].
  apply Nat.leb_gt in E.
  change (List.filter (has_length n) (y :: insert_by_len x r))
    with (if has_length n y
          then y :: List.filter (has_length n) (insert_by_len x r)
          else List.filter (has_length n) (insert_by_len x r)).
  rewrite IH. unfold has_length. simpl.
  destruct (length x =? n) eqn:Ex, (length y =? n) eqn:Ey; try reflexivity.
  apply Nat.eqb_eq in Ex, Ey. lia.
Qed.

Lemma finditer_from_located s : forall pre skip,
  Forall (located (pre ++ s)) (finditer_from (length pre) skip s).
Proof.
  induction s as [|c r IH]; intros pre skip; simpl; [constructor|].
  assert (Hr : forall k, Forall (located (pre ++ c :: r))
                           (finditer_from (S (length pre)) k r)).
  { intros k. specialize (IH (pre ++ [c]) k).
    rewrite <- app_assoc, length_app, Nat.add_1_r in IH. exact IH. }
  destruct skip as [|k]; [|apply Hr].
  destruct (match_here (c :: r)) as [g|] eqn:E; [|apply Hr].
  constructor; [|apply Hr].
  apply match_here_Some in E. destruct E as (post & E & Hne & Hn).
  unfold located, slice. simpl. repeat split; [|exact Hne | exact Hn].
  rewrite E, drop_app_length.
  replace (length pre + length g + 2 - length pre) with (S (length g + 1)) by lia.
  simpl. f_equal.
  rewrite firstn_app, firstn_all2 by lia.
  replace (length g + 1 - length g) with 1 by lia. reflexivity.
Qed.

(** ** The model configuration file *)

Module EndpointFacts.
Import Endpoint.

Lemma universal_newlines_no_CR_upto n : forall s,
  length s <= n -> Forall (fun c => c <> CR) (universal_newlines s).
Proof.
  induction n as [|n IH]; intros s Hn.
  - destruct s; [constructor | simpl in Hn; lia].
  - destruct s as [|c r]; [constructor|]. simpl in Hn.
    change (universal_newlines (c :: r))
      with (if Ascii.eqb c CR then
              LF :: match r with
                    | c' :: r' =>
                        if Ascii.eqb c' LF then universal_newlines r'
                        else universal_newlines r
                    | [] => []
                    end
            else c :: universal_newlines r).
    destruct (Ascii.eqb c CR) eqn:Ec.
    + constructor; [discriminate|].
      destruct r as [|c' r']; [constructor|].
      destruct (Ascii.eqb c' LF); apply IH; simpl in *; lia.
    + apply ascii_eqb_false in Ec. constructor; [exact Ec|]. apply IH. lia.
Qed.

(** What is read holds no carriage return. *)
Lemma universal_newlines_no_CR s :
  Forall (fun c => c <> CR) (universal_newlines s).
Proof. apply (universal_newlines_no_CR_upto (length s)). lia. Qed.

Lemma universal_newlines_id s :
  Forall (fun c => c <> CR) s -> universal_newlines s = s.
Proof.
  induction 1 as [|c r Hc Hr IH]; [reflexivity|].
  change (universal_newlines (c :: r))
    with (if Ascii.eqb c CR then
            LF :: match r with
                  | c' :: r' =>
                      if Ascii.eqb c' LF then universal_newlines r'
                      else universal_newlines r
                  | [] => []
                  end
          else c :: universal_newlines r).
  apply ascii_eqb_false in Hc. rewrite Hc, IH. reflexivity.
Qed.

Lemma lines_keepends_Forall (P : ascii -> Prop) s :
  Forall P s -> Forall (Forall P) (lines_keepends s).
Proof.
  induction 1 as [|c r Hc Hr IH]; simpl; [constructor|].
  destruct (Ascii.eqb c LF).
  - constructor; [repeat constructor; exact Hc | exact IH].
  - destruct (lines_keepends r) as [|l ls].
    + repeat constructor. exact Hc.
    + inversion IH; subst. constructor; [constructor|]; assumption.
Qed.

(** Cutting a text into lines loses nothing. *)
Lemma concat_lines_keepends s : concat (lines_keepends s) = s.
Proof.
  induction s as [|c r IH]; simpl; [reflexivity|].
  destruct (Ascii.eqb c LF); simpl; [now rewrite IH|].
  destruct (lines_keepends r) as [|l ls]; simpl in *; now rewrite <- IH.
Qed.

Lemma tune_lines_map lines :
  tune_lines lines = (map tuned lines, existsb is_rule_line lines).
Proof.
  induction lines as [|line rest IH]; [reflexivity|].
  simpl. rewrite IH. unfold tuned, is_rule_line.
  destruct (contains rule2_key line); [reflexivity|].
  destruct (contains rule3_key line); [reflexivity|].
  destruct (contains rule4_key line); reflexivity.
Qed.

Lemma tuned_no_CR line :
  Forall (fun c => c <> CR) line -> Forall (fun c => c <> CR) (tuned line).
Proof.
  intros H. unfold tuned.
  destruct (contains rule2_key line);
    [vm_compute; repeat constructor; discriminate|].
  destruct (contains rule3_key line);
    [vm_compute; repeat constructor; discriminate|].
  destruct (contains rule4_key line);
    [vm_compute; repeat constructor; discriminate | exact H].
Qed.

(** The first line of a text starts with whatever the text starts with,
    as far as that holds no line feed. *)
Lemma first_line_startswith m : forall r,
  ~ In LF m -> startswith r m = true ->
  startswith (hd [] (lines_keepends r)) m = true.
Proof.
  induction m as [|a m IH]; intros r Hn Hs.
  - destruct (hd [] (lines_keepends r)); reflexivity.
  - destruct r as [|b r]; [discriminate|]. simpl in Hs.
    apply andb_true_iff in Hs. destruct Hs as [Hab Hs].
    apply ascii_eqb_true in Hab. subst b.
    assert (Ha : Ascii.eqb a LF = false).
    { apply ascii_eqb_false. intros E. apply Hn. left. now rewrite E. }
    specialize (IH r ltac:(intros H; apply Hn; right; exact H) Hs).
    simpl lines_keepends. rewrite Ha.
    destruct (lines_keepends r) as [|l ls]; simpl in *.
    + rewrite Ascii.eqb_refl. simpl. destruct m; [reflexivity | discriminate].
    + rewrite Ascii.eqb_refl. exact IH.
Qed.

Lemma startswith_contains s m : startswith s m = true -> contains m s = true.
Proof.
  intros H. apply contains_spec. apply startswith_spec in H.
  destruct H as [post ->]. exists [], post. reflexivity.
Qed.

(** A substring free of line feeds lies within one line. *)
Lemma contains_in_a_line m t :
  m <> [] -> ~ In LF m -> contains m t = true ->
  existsb (contains m) (lines_keepends t) = true.
Proof.
  intros Hne Hn. induction t as [|c r IH].
  - destruct m; [congruence | discriminate].
  - change (contains m (c :: r)) with (startswith (c :: r) m || contains m r).
    intros H. apply orb_true_iff in H. destruct H as [H|H].
    + pose proof (first_line_startswith m (c :: r) Hn H) as Hf.
      destruct (lines_keepends (c :: r)) as [|l ls].
      * simpl in Hf. destruct m; [congruence | discriminate].
      * simpl in *. apply orb_true_iff. left.
        apply startswith_contains, Hf.
    + specialize (IH H). simpl lines_keepends.
      destruct (Ascii.eqb c LF).
      * simpl. rewrite IH. apply orb_true_r.
      * destruct (lines_keepends r) as [|l ls]; [discriminate|].
        simpl in *. apply orb_true_iff in IH. apply orb_true_iff.
        destruct IH as [IH|IH]; [left | right; exact IH].
        change (contains m (c :: l)) with (startswith (c :: l) m || contains m l).
        rewrite IH. apply orb_true_r.
Qed.

Lemma marker_in_written lines :
  contains marker_key (writelines (lines ++ [marker_line])) = true.
Proof.
  apply contains_spec. unfold writelines. rewrite concat_app. simpl.
  exists (concat lines ++ py "# ").
  exists (py " for faster endpoint detection" ++ [LF]).
  rewrite <- !app_assoc. reflexivity.
Qed.

Lemma lines_keepends_app_line body rest :
  ~ In LF body ->
  lines_keepends (body ++ LF :: rest) = (body ++ [LF]) :: lines_keepends rest.
Proof.
  induction body as [|c body IH]; intros Hn; [reflexivity|].
  simpl. assert (Hc : Ascii.eqb c LF = false).
  { apply ascii_eqb_false. intros E. apply Hn. left. now rewrite E. }
  rewrite Hc, IH by (intros H; apply Hn; right; exact H). reflexivity.
Qed.

(** Reading back what [writelines] wrote gives the lines written, when
    each of them is terminated. *)
Lemma lines_keepends_concat lines :
  Forall terminated lines -> lines_keepends (concat lines) = lines.
Proof.
  induction 1 as [|l ls (body & -> & Hn) Hls IH]; [reflexivity|].
  simpl. rewrite <- app_assoc. simpl.
  rewrite lines_keepends_app_line by exact Hn. now rewrite IH.
Qed.

Lemma lines_keepends_nil t : lines_keepends t = [] -> t = [].
Proof.
  destruct t as [|c r]; [reflexivity|]. simpl.
  destruct (Ascii.eqb c LF); [discriminate|].
  destruct (lines_keepends r); discriminate.
Qed.

(** The lines of a text that ends with a line feed are all terminated. *)
Lemma lines_keepends_terminated t :
  last t = Some LF -> Forall terminated (lines_keepends t).
Proof.
  induction t as [|c r IH]; [discriminate|]. intros Hl. simpl.
  assert (Hr : r = [] \/ last r = Some LF).
  { destruct r as [|c' r']; [left; reflexivity | right; exact Hl]. }
  destruct (Ascii.eqb c LF) eqn:Ec.
  - apply ascii_eqb_true in Ec. subst c.
    constructor; [exists []; split; [reflexivity | tauto]|].
    destruct Hr as [-> | Hr]; [constructor | apply IH, Hr].
  - apply ascii_eqb_false in Ec.
    destruct Hr as [-> | Hr]; [simpl in Hl; congruence|].
    specialize (IH Hr).
    destruct (lines_keepends r) as [|l ls] eqn:El.
    { apply lines_keepends_nil in El. subst r. discriminate. }
    inversion IH as [|? ? (body & -> & Hn) Hls]; subst.
    constructor; [|exact Hls].
    exists (c :: body). split; [reflexivity|].
    intros [E|H]; [congruence | exact (Hn H)].
Qed.

Lemma tuned_terminated line : terminated line -> terminated (tuned line).
Proof.
  intros H. unfold tuned.
  destruct (contains rule2_key line).
  { eexists. split; [reflexivity|]. vm_compute. intuition discriminate. }
  destruct (contains rule3_key line).
  { eexists. split; [reflexivity|]. vm_compute. intuition discriminate. }
  destruct (contains rule4_key line).
  { eexists. split; [reflexivity|]. vm_compute. intuition discriminate. }
  exact H.
Qed.

Lemma marker_line_terminated : terminated marker_line.
Proof.
  eexists. split; [reflexivity|]. vm_compute. intuition discriminate.
Qed.

(** The file after the call, case by case. *)
Lemma configure_cases text :
  _configure_endpoint_detection (Some text)
  = if existsb (contains marker_key) (readlines text) then Some text
    else if existsb is_rule_line (readlines text)
         then Some (writelines (map tuned (readlines text) ++ [marker_line]))
         else Some text.
Proof.
  unfold _configure_endpoint_detection. cbv zeta.
  rewrite tune_lines_map. reflexivity.
Qed.

Lemma written_no_CR text :
  Forall (fun c => c <> CR)
    (writelines (map tuned (readlines text) ++ [marker_line])).
Proof.
  unfold writelines. apply Forall_concat, Forall_app. split.
  - apply Forall_fmap.
    eapply Forall_impl;
      [apply lines_keepends_Forall, universal_newlines_no_CR|].
    intros l Hl. apply tuned_no_CR, Hl.
  - constructor; [|constructor].
    vm_compute. repeat (constructor; [discriminate|]). constructor.
Qed.

End EndpointFacts.

(** ** Owners of phrases, and the registry *)

Lemma profile_phrases_lower p ph :
  In ph (profile_phrases p) -> lower ph = ph.
Proof.
  intros H. apply in_profile_phrases in H.
  destruct H as (c & part & _ & Hpart & Hph).
  destruct (command_parts_lower c part Hpart) as (Hlow & _ & _).
  apply str_eqb_eq. change (is_lower ph = true). apply is_lower_Forall.
  pose proof (expand_Forall (fun c => lower_char c = c) eq_refl part
                (proj1 (is_lower_Forall part) Hlow)) as Hall.
  rewrite Forall_forall in Hall. apply Hall, list_elem_of_In, Hph.
Qed.

Lemma find_first {A} (f : A -> bool) (l : list A) x :
  find f l = Some x ->
  exists before after,
    l = before ++ x :: after /\ f x = true
    /\ Forall (fun y => f y = false) before.
Proof.
  induction l as [|a l IH]; simpl; [discriminate|].
  destruct (f a) eqn:E.
  - intros [= <-]. exists [], l. repeat split; [exact E | constructor].
  - intros H. destruct (IH H) as (before & after & -> & Hx & Hb).
    exists (a :: before), after. repeat split; [exact Hx|].
    constructor; assumption.
Qed.

Lemma find_exists {A} (f : A -> bool) (l : list A) x :
  In x l -> f x = true -> exists y, find f l = Some y.
Proof.
  intros Hin Hx. destruct (find f l) as [y|] eqn:E; [eauto|].
  pose proof (find_none f l E x Hin). congruence.
Qed.

Lemma owns_spec cmd_name w_command :
  owns cmd_name w_command = true <->
  exists variation,
    In variation (command_phrases w_command) /\ lower variation = cmd_name.
Proof.
  unfold owns. rewrite existsb_exists. split.
  - intros (v & Hv & E). exists v. split; [exact Hv | apply str_eqb_eq, E].
  - intros (v & Hv & E). exists v. split; [exact Hv | apply str_eqb_eq, E].
Qed.

Lemma _do_command_async s p_cmd_name w_command :
  _get_command_for_executing s p_cmd_name = Some w_command ->
  async w_command = true ->
  _do_command p_cmd_name s
  = (Ok tt,
     set_m_cmd_threads
       (<[p_cmd_name := length (threads s)]> (m_cmd_threads s))
       (set_threads (threads s ++ [thread_of w_command]) s)).
Proof.
  intros Hget Ha. unfold _do_command, mbind, M_bind, get. cbv beta iota.
  rewrite Hget, Ha. reflexivity.
Qed.

Lemma _stop_command_registered s p_cmd_name t :
  m_cmd_threads s !! p_cmd_name = Some t ->
  _stop_command p_cmd_name s
  = (Ok tt,
     set_m_cmd_threads (delete p_cmd_name (m_cmd_threads s))
       (set_threads (alter CommandThread_stop t (threads s)) s)).
Proof.
  intros H. unfold _stop_command, mbind, M_bind, get, modify.
  cbv beta iota. rewrite H. reflexivity.
Qed.


Lemma alter_last {A} (f : A -> A) (l : list A) x :
  alter f (length l) (l ++ [x]) = l ++ [f x].
Proof. induction l as [|a l IH]; simpl; [reflexivity | f_equal; exact IH]. Qed.

Lemma alter_app_r_last {A} (f : A -> A) (l : list A) x y :
  alter f (S (length l)) (l ++ [x; y]) = l ++ [x; f y].
Proof. induction l as [|a l IH]; simpl; [reflexivity | f_equal; exact IH]. Qed.

Lemma _get_command_for_executing_frame s s' cmd_name :
  m_profile s' = m_profile s ->
  _get_command_for_executing s' cmd_name = _get_command_for_executing s cmd_name.
Proof. intros E. unfold _get_command_for_executing. now rewrite E. Qed.

(** ** The session: hotkey and listening *)

Lemma set_m_stream_same s st :
  m_stream s = Some st -> set_m_stream (Some {| active := active st |}) s = s.
Proof. destruct s, st. simpl. intros ->. reflexivity. Qed.

Lemma set_executor_same h : set_executor (executor h) h = h.
Proof. destruct h. reflexivity. Qed.

(** With a stream and a recognizer, an event of the hotkey leaves the
    stream started after [DOWN], stopped after [UP], and changes nothing
    else. *)
Lemma on_hotkey_run s st r et :
  m_stream s = Some st -> recognizer s = Some r ->
  on_hotkey et s
  = (Ok tt, set_m_stream (Some {| active := held_after et (active st) |}) s).
Proof.
  intros Es Er.
  unfold on_hotkey, _stop_ptl_stream, stream_set_active, the_stream,
    the_recognizer, mbind, M_bind, get, modify, mret, M_ret.
  destruct et; cbv beta iota; rewrite ?Es; cbv beta iota.
  - destruct (active st) eqn:Ea; simpl; rewrite ?Es; simpl.
    + rewrite <- Ea. now rewrite set_m_stream_same.
    + reflexivity.
  - destruct (active st) eqn:Ea; simpl; rewrite ?Es; simpl; rewrite ?Er; simpl.
    + reflexivity.
    + rewrite <- Ea. now rewrite set_m_stream_same.
  - simpl. now rewrite set_m_stream_same.
Qed.

Lemma with_active_same h st :
  m_stream (executor h) = Some st -> with_active (active st) h = h.
Proof.
  intros Es. unfold with_active.
  rewrite (set_m_stream_same _ _ Es). apply set_executor_same.
Qed.

Lemma lift_on_hotkey_run h st r et :
  m_stream (executor h) = Some st -> recognizer (executor h) = Some r ->
  lift (on_hotkey et) h = (Ok tt, with_active (held_after et (active st)) h).
Proof.
  intros Es Er. unfold lift. rewrite (on_hotkey_run _ st r et Es Er). reflexivity.
Qed.

Lemma _on_keyboard_key_event_run h k st r e :
  ptl_key h = Some k ->
  m_stream (executor h) = Some st -> recognizer (executor h) = Some r ->
  _on_keyboard_key_event e h
  = (Ok tt,
     with_active (if is_hotkey_key k e
                  then held_after (ke_event_type e) (active st)
                  else active st) h).
Proof.
  intros Ek Es Er.
  unfold _on_keyboard_key_event, is_hotkey_key, the_ptl_key.
  destruct (str_eqb (ke_name e) (py "unknown")); simpl.
  - unfold mret, SM_ret. now rewrite (with_active_same h st Es).
  - unfold mbind, SM_bind, getS. cbv beta iota. rewrite Ek.
    unfold mret at 1, SM_ret at 1. cbv beta iota.
    destruct (scan_code e =? hk_code k)%Z.
    + apply (lift_on_hotkey_run h st r); assumption.
    + unfold mret, SM_ret. now rewrite (with_active_same h st Es).
Qed.

Lemma _on_mouse_key_event_run h k st r e :
  ptl_key h = Some k ->
  m_stream (executor h) = Some st -> recognizer (executor h) = Some r ->
  _on_mouse_key_event e h
  = (Ok tt,
     with_active (match e with
                  | ButtonEvent et button =>
                      if str_eqb button (hk_button k)
                      then held_after et (active st) else active st
                  | _ => active st
                  end) h).
Proof.
  intros Ek Es Er. unfold _on_mouse_key_event, the_ptl_key.
  destruct e as [et button| |];
    try (unfold mret, SM_ret; now rewrite (with_active_same h st Es)).
  unfold mbind, SM_bind, getS. cbv beta iota. rewrite Ek.
  unfold mret at 1, SM_ret at 1. cbv beta iota.
  destruct (str_eqb button (hk_button k)).
  - apply (lift_on_hotkey_run h st r); assumption.
  - unfold mret, SM_ret. now rewrite (with_active_same h st Es).
Qed.

Lemma with_active_twice a b h : with_active b (with_active a h) = with_active b h.
Proof. reflexivity. Qed.

Lemma keyboard_hook_run events : forall h k st r,
  ptl_key h = Some k ->
  m_stream (executor h) = Some st -> recognizer (executor h) = Some r ->
  keyboard_hook events h
  = (Ok tt, with_active (key_held k events (active st)) h).
Proof.
  induction events as [|e events IH]; intros h k st r Ek Es Er; simpl.
  - unfold mret, SM_ret. now rewrite (with_active_same h st Es).
  - unfold mbind, SM_bind.
    rewrite (_on_keyboard_key_event_run h k st r e Ek Es Er).
    rewrite (IH _ k {| active := if is_hotkey_key k e
                                 then held_after (ke_event_type e) (active st)
                                 else active st |} r);
      [|exact Ek | reflexivity | exact Er].
    reflexivity.
Qed.

Lemma mouse_hook_run events : forall h k st r,
  ptl_key h = Some k ->
  m_stream (executor h) = Some st -> recognizer (executor h) = Some r ->
  mouse_hook events h
  = (Ok tt, with_active (button_held k events (active st)) h).
Proof.
  induction events as [|e events IH]; intros h k st r Ek Es Er; simpl.
  - unfold mret, SM_ret. now rewrite (with_active_same h st Es).
  - unfold mbind, SM_bind.
    rewrite (_on_mouse_key_event_run h k st r e Ek Es Er).
    erewrite (IH _ k _ r); [|exact Ek | reflexivity | exact Er].
    reflexivity.
Qed.











(** ** Shutdown *)












(** ** The mouse back-ends *)

Lemma str_eqb_refl (a : str) : str_eqb a a = true.
Proof. now apply str_eqb_eq. Qed.

Lemma _execute_ydotool_command_run path command h :
  _execute_ydotool_command path command h
  = (Ok tt,
     match ydotoold h with
     | Some _ =>
         set_shell (shell h ++ [py "env YDOTOOL_SOCKET=" ++ path
                                ++ py " ydotool " ++ command]) h
     | None => h
     end).
Proof.
  unfold _execute_ydotool_command, mbind, SM_bind, getS, modifyS.
  cbv beta iota. now destruct (ydotoold h).
Qed.

Lemma _click_mouse_key_run path w_button w_type h :
  _click_mouse_key path w_button w_type h
  = if USE_YDOTOOL (settings h)
    then _click_mouse_key_ydotool path w_button w_type h
    else _click_mouse_key_mouse w_button w_type h.
Proof.
  unfold _click_mouse_key, mbind, SM_bind, getS. cbv beta iota.
  now destruct (USE_YDOTOOL (settings h)).
Qed.

Lemma known_click_type_cases w_type :
  known_click_type w_type = true
  <-> (w_type = 1 \/ w_type = 0 \/ w_type = 10 \/ w_type = 11)%Z.
Proof.
  unfold known_click_type. simpl. rewrite !orb_true_iff, !Z.eqb_eq.
  intuition discriminate.
Qed.

(** ** The audio callbacks *)








(** ** The invariant of the session *)









Lemma grammar_applied_console s :
  stdout_encodes_symbols (grammar_applied s) = stdout_encodes_symbols s.
Proof.
  unfold grammar_applied.
  destruct (recognizer s) as [r|]; [|reflexivity].
  destruct (commands_list s) as [|c cl]; [reflexivity|].
  destruct (has_SetGrammar r);
    [destruct (SetGrammar_error r (c :: cl)) as [[msg|msg]|]|];
    try reflexivity.
  cbv zeta. destruct (stdout_encodes_symbols s) eqn:E; cbn; now rewrite E.
Qed.



(** ** [set_language] *)



























(** * The statements of the specification *)

(** Finds the head of the left list in the right one and removes it. *)
Ltac perm_pick :=
  lazymatch goal with
  | |- Permutation [] [] => apply perm_nil
  | |- Permutation (?x :: _) ?r =>
      let rec cut pre r :=
        lazymatch r with
        | x :: ?post => constr:((pre, post))
        | ?y :: ?post => cut constr:(pre ++ [y]) post
        end in
      lazymatch cut constr:(@nil str) r with
      | (?pre, ?post) => apply (Permutation_cons_app pre post x); simpl
      end
  end.

(** C1. Phrase expansion of "open [the, a] menu [now]" returns exactly the
    six phrases "open the menu now", "open a menu now", "open the menu",
    "open a menu", "open menu now", "open menu", and expansion of
    "power up [the ship, the engines]" returns exactly "power up the ship",
    "power up the engines", "power up".  The lists are given first in the
    order of the Cartesian product (omission first, the last bracket
    advancing fastest), then as a permutation of the order of the
    specification.  For every text the combinations are the Cartesian
    product of the brackets' choices: each bracket counts for its omission
    and for each of its comma-separated alternatives. *)
Theorem C1_expand_examples :
  _expand_optional_brackets (py "open [the, a] menu [now]")
  = [py "open menu"; py "open menu now"; py "open the menu";
     py "open the menu now"; py "open a menu"; py "open a menu now"]
  /\ Permutation
       (_expand_optional_brackets (py "open [the, a] menu [now]"))
       [py "open the menu now"; py "open a menu now"; py "open the menu";
        py "open a menu"; py "open menu now"; py "open menu"]
  /\ _expand_optional_brackets (py "power up [the ship, the engines]")
     = [py "power up"; py "power up the ship"; py "power up the engines"]
  /\ Permutation
       (_expand_optional_brackets (py "power up [the ship, the engines]"))
       [py "power up the ship"; py "power up the engines"; py "power up"]
  /\ (forall text,
        length (product (choice_lists (segments_of text (finditer text))))
        = choice_count (segments_of text (finditer text))).
Proof.
  split; [vm_compute; reflexivity|].
  split; [vm_compute; repeat perm_pick|].
  split; [vm_compute; reflexivity|].
  split; [vm_compute; repeat perm_pick|].
  intros text. apply product_choice_count.
Qed.

(** C2. The table [set_profile] leaves runs from the longest phrase to the
    shortest; a phrase matches when it is a substring of the transcript;
    [check_commands] stops at the first phrase that matches, so it runs at
    most one command, that of a longest matching phrase.  With the phrases
    "go" and "go home", in either order of the commands, the transcript
    "please go home now" runs the command that owns "go home" and not the
    one that owns "go". *)
Theorem C2_longest_match_first :
  (forall p_profile s,
     fst (set_profile p_profile s) = Ok tt ->
     StronglySorted longer_first (commands_list (exec (set_profile p_profile) s)))
  /\ (forall phrase transcript,
        contains phrase transcript = true <->
        exists pre post, transcript = pre ++ phrase ++ post)
  /\ (forall transcript s,
        check_commands transcript s
        = match first_match (commands_list s) transcript with
          | Some phrase => (_ ← the_recognizer; _do_command phrase) s
          | None => (Ok tt, s)
          end)
  /\ (forall cl transcript phrase,
        first_match cl transcript = Some phrase ->
        exists before after,
          cl = before ++ phrase :: after
          /\ contains phrase transcript = true
          /\ Forall (fun q => contains q transcript = false) before)
  /\ (forall cl transcript phrase,
        StronglySorted longer_first cl ->
        first_match cl transcript = Some phrase ->
        forall q, In q cl -> contains q transcript = true ->
                  length q <= length phrase)
  /\ (forall p, p = Sample.travel \/ p = Sample.travel' ->
        let s := exec (set_profile (Some p)) Sample.ready in
        commands_list s = [py "go home"; py "go"]
        /\ first_match (commands_list s) (py "please go home now")
           = Some (py "go home")
        /\ _get_command_for_executing s (py "go home") = Some Sample.go_home
        /\ performed (exec (listen_callback (py "please go home now")) s)
           = actions Sample.go_home).
Proof.
  split; [|split; [|split; [|split; [|split]]]].
  - intros p_profile s H. apply set_profile_returned in H.
    destruct (set_profile_result p_profile s H) as (-> & _ & _).
    destruct p_profile as [p|]; simpl; [apply sort_len_reverse_sorted | constructor].
  - apply contains_spec.
  - intros transcript s. unfold check_commands, mbind at 1, M_bind at 1, get at 1.
    cbv beta iota. apply check_commands_in_run.
  - apply first_match_Some.
  - apply first_match_longest.
  - intros p [-> | ->]; vm_compute; repeat split.
Qed.

(** C2 (witness). The theorem at a concrete input. *)
Lemma C2_longest_match_first_witness :
  let s := exec (set_profile (Some Sample.cockpit)) Sample.ready in
  Forall (fun q => contains q (py "please go home now") = true ->
                   length q <= length (py "go home"))
         (commands_list s).
Proof.
  intros s.
  destruct C2_longest_match_first as (Hsorted & _ & _ & _ & Hlongest & _).
  apply List.Forall_forall. intros q Hq.
  apply (Hlongest (commands_list s) (py "please go home now") (py "go home")).
  - apply Hsorted. vm_compute. reflexivity.
  - vm_compute. reflexivity.
  - exact Hq.
Defined.




(** C4 (counterexample). Two alternatives of one bracket, and two commands,
    that expand to the same phrase: the table holds the phrase twice. *)
Lemma C4_counterexample :
  commands_list (exec (set_profile (Some Sample.twins)) Sample.ready)
  = [py "fire now"; py "fire now"; py "fire"; py "fire"]
  /\ ~ List.NoDup (commands_list (exec (set_profile (Some Sample.twins)) Sample.ready)).
Proof.
  assert (E : commands_list (exec (set_profile (Some Sample.twins)) Sample.ready)
              = [py "fire now"; py "fire now"; py "fire"; py "fire"])
    by (vm_compute; reflexivity).
  split; [exact E|]. rewrite E. intros H.
  apply List.NoDup_cons_iff in H. destruct H as [H _]. apply H. left. reflexivity.
Qed.

(** C4 (amended). Phrase expansion produces a list, not a set: the table
    [set_profile] registers is a permutation of the concatenated
    expansions of the comma-alternates of all commands, so a phrase occurs
    in it once for every command, alternate and bracket combination that
    yields it, and the table is free of duplicates exactly when those
    expansions yield no phrase twice. *)
Theorem C4_table_keeps_every_phrase (p : Profile) (s : ProfileExecutor) :
  fst (set_profile (Some p) s) = Ok tt ->
  let table := commands_list (exec (set_profile (Some p)) s) in
  Permutation table (profile_phrases p)
  /\ (forall ph,
        count_occ (List.list_eq_dec ascii_dec) table ph
        = count_occ (List.list_eq_dec ascii_dec) (profile_phrases p) ph)
  /\ (List.NoDup table <-> List.NoDup (profile_phrases p)).
Proof.
  intros H table. apply set_profile_returned in H.
  destruct (set_profile_result (Some p) s H) as (Hc & _ & _).
  assert (Hp : Permutation table (profile_phrases p)).
  { unfold table. rewrite Hc. apply sort_len_reverse_Permutation. }
  split; [exact Hp|]. split.
  - apply Permutation_count_occ, Hp.
  - split; apply Permutation_NoDup; [|symmetry]; exact Hp.
Qed.

(** C4 (witness). The theorem at a concrete input. *)
Lemma C4_table_keeps_every_phrase_witness :
  count_occ (List.list_eq_dec ascii_dec)
    (commands_list (exec (set_profile (Some Sample.twins)) Sample.ready))
    (py "fire")
  = count_occ (List.list_eq_dec ascii_dec) (profile_phrases Sample.twins) (py "fire").
Proof.
  apply (C4_table_keeps_every_phrase Sample.twins Sample.ready).
  vm_compute. reflexivity.
Defined.

(** C5. A command whose [repeat] is zero or negative: the synchronous path
    runs its action sequence exactly once; the asynchronous path hands
    [repeat] unchanged to the thread, whose loop then never runs the
    sequence, whatever it reads in its stop flag. *)
Theorem C5_repeat_floor_only_inline
    (s : ProfileExecutor) (p_cmd_name : str) (w_command : Command) :
  _get_command_for_executing s p_cmd_name = Some w_command ->
  (repeat w_command <= 0)%Z ->
  (async w_command = false ->
   _do_command p_cmd_name s
   = (Ok tt, set_performed (performed s ++ actions w_command) s))
  /\ (async w_command = true ->
      let w_cmd_thread :=
        {| m_actions := actions w_command;
           m_repeat := repeat w_command;
           m_stop := false |} in
      _do_command p_cmd_name s
      = (Ok tt,
         set_m_cmd_threads
           (<[p_cmd_name := length (threads s)]> (m_cmd_threads s))
           (set_threads (threads s ++ [w_cmd_thread]) s))
      /\ forall stop_read, CommandThread_run w_cmd_thread stop_read = []).
Proof.
  intros Hget Hrep. unfold _do_command, mbind, M_bind, get. cbv beta iota.
  rewrite Hget. split; intros Ha; rewrite Ha; simpl.
  - rewrite run_inline_run.
    replace (Z.max (repeat w_command) 1) with 1%Z by lia.
    unfold times. simpl. rewrite app_nil_r. reflexivity.
  - split; [reflexivity|]. intros stop_read.
    unfold CommandThread_run. simpl. apply thread_loop_not_positive, Hrep.
Qed.

(** C5 (witness). The theorem at a concrete input. *)
Lemma C5_repeat_floor_only_inline_witness :
  let s := exec (set_profile (Some Sample.drills)) Sample.ready in
  performed (exec (_do_command (py "tap")) s) = actions Sample.tap
  /\ performed (exec (_do_command (py "spin")) s) = []
  /\ CommandThread_run
       {| m_actions := actions Sample.spin; m_repeat := repeat Sample.spin;
          m_stop := false |} (fun _ => false) = [].
Proof.
  intros s.
  assert (Htap : _get_command_for_executing s (py "tap") = Some Sample.tap)
    by (vm_compute; reflexivity).
  assert (Hspin : _get_command_for_executing s (py "spin") = Some Sample.spin)
    by (vm_compute; reflexivity).
  destruct (C5_repeat_floor_only_inline s (py "tap") Sample.tap Htap
              ltac:(simpl; lia)) as [Hsync _].
  destruct (C5_repeat_floor_only_inline s (py "spin") Sample.spin Hspin
              ltac:(simpl; lia)) as [_ Hasync].
  destruct (Hasync eq_refl) as [Hrun Hnever].
  unfold exec. rewrite (Hsync eq_refl), Hrun.
  split; [vm_compute; reflexivity|].
  split; [vm_compute; reflexivity | apply Hnever].
Defined.







(** C8. Stopping a command whose name is not in the running-command
    registry returns normally and leaves the whole executor as it was.
    Stopping a registered command returns normally, signals its thread
    and removes the entry of that name and no other. *)
Theorem C8_stop_command (p_cmd_name : str) (s : ProfileExecutor) :
  (m_cmd_threads s !! p_cmd_name = None ->
   _stop_command p_cmd_name s = (Ok tt, s))
  /\ (forall t, m_cmd_threads s !! p_cmd_name = Some t ->
      let s' :=
        set_m_cmd_threads (delete p_cmd_name (m_cmd_threads s))
          (set_threads (alter CommandThread_stop t (threads s)) s) in
      _stop_command p_cmd_name s = (Ok tt, s')
      /\ m_cmd_threads s' !! p_cmd_name = None
      /\ (forall other, other <> p_cmd_name ->
          m_cmd_threads s' !! other = m_cmd_threads s !! other)
      /\ (forall th, threads s !! t = Some th ->
          threads s' !! t = Some (CommandThread_stop th))
      /\ (forall j, j <> t -> threads s' !! j = threads s !! j)).
Proof.
  unfold _stop_command, mbind, M_bind, get, modify. cbv beta iota. split.
  - intros ->. reflexivity.
  - intros t ->. simpl. repeat split.
    + apply lookup_delete_eq.
    + intros other Hne. apply lookup_delete_ne. congruence.
    + intros th Hth. rewrite list_lookup_alter, Hth.
      destruct (decide (t = t)); [reflexivity | congruence].
    + intros j Hne. apply list_lookup_alter_ne. congruence.
Qed.

(** C8 (witness). The theorem at a concrete input. *)
Lemma C8_stop_command_witness :
  let running := exec (_do_command (py "spin"))
                   (exec (set_profile (Some Sample.drills)) Sample.ready) in
  _stop_command (py "tap") running = (Ok tt, running)
  /\ m_cmd_threads (exec (_stop_command (py "spin")) running) !! py "spin" = None.
Proof.
  intros running. split.
  - apply (proj1 (C8_stop_command (py "tap") running)). vm_compute. reflexivity.
  - assert (H : m_cmd_threads running !! py "spin" = Some 0)
      by (vm_compute; reflexivity).
    destruct (proj2 (C8_stop_command (py "spin") running) 0 H) as (E & Hgone & _).
    unfold exec. rewrite E. exact Hgone.
Defined.

(** C9. Rebuilding the command table is idempotent: when [set_profile]
    returns, a second call with the same profile returns as well and leaves
    the identical phrase list, the same phrases in the same order. *)
Theorem C9_set_profile_idempotent (p_profile : option Profile) (s : ProfileExecutor) :
  fst (set_profile p_profile s) = Ok tt ->
  let once := exec (set_profile p_profile) s in
  let twice := exec (set_profile p_profile) once in
  fst (set_profile p_profile once) = Ok tt
  /\ commands_list twice = commands_list once.
Proof.
  intros H once twice. apply set_profile_returned in H.
  destruct (set_profile_result p_profile s H) as (Hc & _ & Hr).
  destruct (set_profile_result p_profile once Hr) as (Hc' & _ & _).
  split; [apply set_profile_returned, Hr|].
  unfold twice. rewrite Hc'. symmetry. exact Hc.
Qed.

(** C9 (witness). The theorem at a concrete input. *)
Lemma C9_set_profile_idempotent_witness :
  fst (set_profile (Some Sample.cockpit)
         (exec (set_profile (Some Sample.cockpit)) Sample.ready)) = Ok tt
  /\ commands_list
       (exec (set_profile (Some Sample.cockpit))
          (exec (set_profile (Some Sample.cockpit)) Sample.ready))
     = commands_list (exec (set_profile (Some Sample.cockpit)) Sample.ready).
Proof.
  apply (C9_set_profile_idempotent (Some Sample.cockpit) Sample.ready).
  vm_compute. reflexivity.
Defined.

(** C10. The fallbacks of phrase expansion.  When the text has no bracketed
    span, expansion returns the text alone and verbatim, its whitespace
    untouched.  When it has one but every variation the combinations build
    is the empty string, expansion returns the original text alone,
    brackets included. *)
Theorem C10_expand_fallbacks (text : str) :
  (~ has_bracket_span text -> _expand_optional_brackets text = [text])
  /\ (has_bracket_span text ->
      Forall (fun combination =>
                variation_of (segments_of text (finditer text)) combination = [])
             (product (choice_lists (segments_of text (finditer text)))) ->
      _expand_optional_brackets text = [text]).
Proof.
  split.
  - intros H. apply expand_no_match, finditer_nil_iff, H.
  - intros H Hall. rewrite expand_match.
    + unfold variations_of.
      set (combos := product _) in *.
      induction Hall as [|comb rest Hc Hrest IH]; [reflexivity|].
      simpl. rewrite Hc. simpl. exact IH.
    + intros E. apply finditer_nil_iff in E. exact (E H).
Qed.

(** C10 (witness). The theorem at a concrete input. *)
Lemma C10_expand_fallbacks_witness :
  _expand_optional_brackets (py "open   menu") = [py "open   menu"]
  /\ _expand_optional_brackets (py "[ ]") = [py "[ ]"].
Proof.
  split.
  - apply (proj1 (C10_expand_fallbacks (py "open   menu"))).
    apply finditer_nil_iff. vm_compute. reflexivity.
  - apply (proj2 (C10_expand_fallbacks (py "[ ]"))).
    + exists [], (py " "), []. repeat split; [discriminate|].
      simpl. intros [H|[]]. discriminate.
    + vm_compute. repeat constructor.
Defined.

(** * Further properties *)

(** X1. The bracket pattern finds a match exactly when the text has a
    bracketed span (an opening bracket, a non-empty body free of closing
    brackets, a closing bracket), and every match it reports lies where
    its span is: the text from [start()] to [end()] is the captured group
    between its two brackets. *)
Theorem X1_bracket_pattern_finds_spans (text : str) :
  (finditer text = [] <-> ~ has_bracket_span text)
  /\ Forall (located text) (finditer text).
Proof.
  split; [apply finditer_nil_iff|].
  exact (finditer_from_located text [] 0).
Qed.

(** X3. The sort of the table is stable and loses nothing: the table runs
    from the longest phrase to the shortest, holds the same phrases as
    before the sort, and phrases of equal length stay in the order of their
    registration. *)
Theorem X3_sort_is_stable (l : list str) :
  StronglySorted longer_first (sort_len_reverse l)
  /\ Permutation (sort_len_reverse l) l
  /\ (forall n, List.filter (has_length n) (sort_len_reverse l)
                = List.filter (has_length n) l).
Proof.
  split; [apply sort_len_reverse_sorted|].
  split; [apply sort_len_reverse_Permutation|].
  intros n. induction l as [|x r IH]; [reflexivity|].
  simpl sort_len_reverse. rewrite insert_by_len_filter.
  simpl. rewrite IH. reflexivity.
Qed.

(** X5. [set_profile] called on a listening executor stops the stream,
    rebuilds the table and starts a new stream, and returns with
    [listening] left at [False]: [_stop] clears the flag and
    [_start_stream] does not set it again. *)
Theorem X5_set_profile_leaves_listening_false
    (p : Profile) (s : ProfileExecutor) (st : RawInputStream) (r : KaldiRecognizer) :
  listening s = true ->
  m_stream s = Some st ->
  recognizer s = Some r ->
  let s' := exec (set_profile (Some p)) s in
  fst (set_profile (Some p) s) = Ok tt
  /\ listening s' = false
  /\ m_stream s' = Some {| active := true |}.
Proof.
  intros El Es Er s'. subst s'.
  unfold exec, set_profile, _stop, the_recognizer.
  unfold mbind, M_bind, get, modify, mret, M_ret. cbv beta iota.
  rewrite El, Es. simpl. rewrite _stop_ptl_listener_run. simpl.
  rewrite Er. simpl.
  rewrite _apply_grammar_constraint_run.
  match goal with |- context [grammar_applied ?x] => set (s1 := x) end.
  destruct (grammar_applied_frame s1) as (Fc & Fp & Fl & Fs & Ff & Fr).
  destruct (proj2 Fr) as [r' Er']; [simpl; rewrite Er; eauto|].
  rewrite (_start_stream_run _ r') by (rewrite ?Fs; auto).
  simpl. rewrite Fl. auto.
Qed.

(** X5 (witness). The theorem at a concrete input. *)
Lemma X5_set_profile_leaves_listening_false_witness :
  fst (set_profile (Some Sample.travel) Sample.on_air) = Ok tt
  /\ listening (exec (set_profile (Some Sample.travel)) Sample.on_air) = false
  /\ m_stream (exec (set_profile (Some Sample.travel)) Sample.on_air)
     = Some {| active := true |}.
Proof.
  apply (X5_set_profile_leaves_listening_false Sample.travel Sample.on_air
           {| active := true |} Sample.lgraph_model); reflexivity.
Defined.

(** X6. Configuring the endpoint detection of a model is done once: a
    second call leaves the file of the first as it is.  A missing file
    stays missing; a file that holds the marker, or no endpoint rule, is
    not written; any other file is rewritten with each rule line replaced
    by its tuned value, the other lines kept, and the marker line added at
    the end. *)
Theorem X6_configure_endpoint_once (conf : option str) :
  Endpoint._configure_endpoint_detection
    (Endpoint._configure_endpoint_detection conf)
  = Endpoint._configure_endpoint_detection conf
  /\ (conf = None -> Endpoint._configure_endpoint_detection conf = None)
  /\ (forall text, conf = Some text ->
      let lines := Endpoint.readlines text in
      (existsb (contains Endpoint.marker_key) lines = true
       \/ existsb Endpoint.is_rule_line lines = false ->
       Endpoint._configure_endpoint_detection conf = Some text)
      /\ (existsb (contains Endpoint.marker_key) lines = false ->
          existsb Endpoint.is_rule_line lines = true ->
          Endpoint._configure_endpoint_detection conf
          = Some (Endpoint.writelines
                    (map Endpoint.tuned lines ++ [Endpoint.marker_line])))).
Proof.
  split; [|split].
  - destruct conf as [text|]; [|reflexivity].
    rewrite (EndpointFacts.configure_cases text).
    destruct (existsb (contains Endpoint.marker_key) (Endpoint.readlines text))
      eqn:Em.
    { rewrite EndpointFacts.configure_cases, Em. reflexivity. }
    destruct (existsb Endpoint.is_rule_line (Endpoint.readlines text)) eqn:Er.
    2: { rewrite EndpointFacts.configure_cases, Em, Er. reflexivity. }
    rewrite EndpointFacts.configure_cases.
    set (out := Endpoint.writelines _).
    assert (Hm : existsb (contains Endpoint.marker_key) (Endpoint.readlines out)
                 = true).
    { unfold Endpoint.readlines.
      rewrite EndpointFacts.universal_newlines_id
        by apply EndpointFacts.written_no_CR.
      apply EndpointFacts.contains_in_a_line.
      - discriminate.
      - vm_compute. intuition discriminate.
      - apply EndpointFacts.marker_in_written. }
    rewrite Hm. reflexivity.
  - intros ->. reflexivity.
  - intros text -> lines. subst lines.
    rewrite EndpointFacts.configure_cases. split.
    + intros [Hm | Hr].
      * rewrite Hm. reflexivity.
      * rewrite Hr.
        destruct (existsb (contains Endpoint.marker_key) _); reflexivity.
    + intros Hm Hr. rewrite Hm, Hr. reflexivity.
Qed.

(** X6 (witness). A file with two rules: rewritten by the first call, left
    alone by the second. *)
Lemma X6_configure_endpoint_once_witness :
  let text := py "--endpoint.rule2.min-trailing-silence=0.5" ++ [Endpoint.LF]
              ++ py "--max-active=3000" ++ [Endpoint.LF]
              ++ py "--endpoint.rule4.min-trailing-silence=2.0" ++ [Endpoint.LF] in
  Endpoint._configure_endpoint_detection (Some text)
  = Some (Endpoint.rule2_line ++ py "--max-active=3000" ++ [Endpoint.LF]
          ++ Endpoint.rule4_line ++ Endpoint.marker_line).
Proof.
  intros text.
  destruct (X6_configure_endpoint_once (Some text)) as (_ & _ & H).
  destruct (H text eq_refl) as [_ Hw].
  rewrite Hw; vm_compute; reflexivity.
Defined.

(** X7. When the configuration file ends with a line end, holds an
    endpoint rule and has not been configured before, the file written
    reads back line for line: each rule line with its tuned value (0.3, 0.6
    and 0.9 seconds for rules 2, 3 and 4), every other line as it was, and
    the marker as the last line. *)
Theorem X7_configured_file_reads_back (text : str) :
  last (Endpoint.universal_newlines text) = Some Endpoint.LF ->
  existsb (contains Endpoint.marker_key) (Endpoint.readlines text) = false ->
  existsb Endpoint.is_rule_line (Endpoint.readlines text) = true ->
  exists out,
    Endpoint._configure_endpoint_detection (Some text) = Some out
    /\ Endpoint.readlines out
       = map Endpoint.tuned (Endpoint.readlines text) ++ [Endpoint.marker_line].
Proof.
  intros Hl Hm Hr. eexists. split.
  - rewrite EndpointFacts.configure_cases, Hm, Hr. reflexivity.
  - unfold Endpoint.readlines at 1.
    rewrite EndpointFacts.universal_newlines_id
      by apply EndpointFacts.written_no_CR.
    apply EndpointFacts.lines_keepends_concat.
    apply Forall_app. split.
    + apply Forall_fmap.
      eapply Forall_impl;
        [apply EndpointFacts.lines_keepends_terminated, Hl|].
      intros l H. apply EndpointFacts.tuned_terminated, H.
    + constructor; [apply EndpointFacts.marker_line_terminated | constructor].
Qed.

(** X7 (witness). The theorem at a concrete input. *)
Lemma X7_configured_file_reads_back_witness :
  exists out,
    Endpoint._configure_endpoint_detection
      (Some (py "--endpoint.rule3.min-trailing-silence=1.0" ++ [Endpoint.CR; Endpoint.LF]
             ++ py "--beam=13.0" ++ [Endpoint.LF])) = Some out
    /\ Endpoint.readlines out
       = [Endpoint.rule3_line; py "--beam=13.0" ++ [Endpoint.LF];
          Endpoint.marker_line].
Proof.
  destruct (X7_configured_file_reads_back
              (py "--endpoint.rule3.min-trailing-silence=1.0"
               ++ [Endpoint.CR; Endpoint.LF]
               ++ py "--beam=13.0" ++ [Endpoint.LF]))
    as (out & Ho & Hr); try (vm_compute; reflexivity).
  exists out. split; [exact Ho|]. rewrite Hr. vm_compute. reflexivity.
Defined.

(** X8. The table and the lookup of commands agree.  After [set_profile]
    has returned, every phrase of the table has an owner: for such a
    phrase [_get_command_for_executing] finds a command of the profile
    whose name expands to it, and this is the first such command in the
    order of the profile, so a later command with the same phrase is never
    run for it. *)
Theorem X8_every_phrase_has_an_owner
    (p : Profile) (s : ProfileExecutor) (ph : str) :
  fst (set_profile (Some p) s) = Ok tt ->
  In ph (commands_list (exec (set_profile (Some p)) s)) ->
  exists w_command before after,
    _get_command_for_executing (exec (set_profile (Some p)) s) ph
    = Some w_command
    /\ commands p = before ++ w_command :: after
    /\ In ph (command_phrases w_command)
    /\ Forall (fun earlier => ~ In ph (command_phrases earlier)) before.
Proof.
  intros H Hin. apply set_profile_returned in H.
  destruct (set_profile_result (Some p) s H) as (Hc & Hp & _).
  rewrite Hc in Hin. apply table_of_In in Hin.
  pose proof (profile_phrases_lower p) as Hlow.
  unfold _get_command_for_executing. rewrite Hp.
  change (find _ (commands p)) with (find (owns ph) (commands p)).
  assert (Hown : forall c, In c (commands p) ->
                 (owns ph c = true <-> In ph (command_phrases c))).
  { intros c Hcin. rewrite owns_spec. split.
    - intros (v & Hv & E). rewrite <- E.
      rewrite Hlow; [exact Hv|].
      unfold profile_phrases. apply in_flat_map. eauto.
    - intros Hph. exists ph. split; [exact Hph | apply Hlow, Hin]. }
  unfold profile_phrases in Hin. apply in_flat_map in Hin.
  destruct Hin as (c0 & Hc0 & Hph0).
  destruct (find_exists (owns ph) (commands p) c0 Hc0
              (proj2 (Hown c0 Hc0) Hph0)) as [c Hfind].
  destruct (find_first _ _ _ Hfind) as (before & after & E & Hc1 & Hb).
  exists c, before, after. rewrite Hfind. repeat split; [exact E | |].
  - apply Hown; [|exact Hc1]. rewrite E. apply in_elt.
  - rewrite Forall_forall in Hb. apply Forall_forall. intros e He Hphe.
    assert (Hein : In e (commands p)).
    { rewrite E. apply in_or_app. left. apply list_elem_of_In, He. }
    specialize (Hb e He). rewrite (proj2 (Hown e Hein) Hphe) in Hb.
    discriminate.
Qed.

(** X8 (witness). "fire" is a phrase of both commands of the profile; the
    first one owns it. *)
Lemma X8_every_phrase_has_an_owner_witness :
  exists w_command before after,
    _get_command_for_executing
      (exec (set_profile (Some Sample.twins)) Sample.ready) (py "fire")
    = Some w_command
    /\ commands Sample.twins = before ++ w_command :: after
    /\ In (py "fire") (command_phrases w_command)
    /\ Forall (fun earlier => ~ In (py "fire") (command_phrases earlier)) before.
Proof.
  apply (X8_every_phrase_has_an_owner Sample.twins Sample.ready (py "fire")).
  - vm_compute. reflexivity.
  - vm_compute. tauto.
Defined.

(** X9. The life of an asynchronous command.  Dispatching it returns at
    once, without running any action on the calling thread, creates one
    thread object with the stop flag down and registers it under the name
    of the command.  Stopping the command by that name then raises the
    flag of that thread and leaves the registry as it was before the
    dispatch, without an entry for the name. *)
Theorem X9_async_start_then_stop
    (s : ProfileExecutor) (p_cmd_name : str) (w_command : Command) :
  _get_command_for_executing s p_cmd_name = Some w_command ->
  async w_command = true ->
  let started := exec (_do_command p_cmd_name) s in
  let stopped := exec (_stop_command p_cmd_name) started in
  fst (_do_command p_cmd_name s) = Ok tt
  /\ performed started = performed s
  /\ threads started = threads s ++ [thread_of w_command]
  /\ m_cmd_threads started !! p_cmd_name = Some (length (threads s))
  /\ fst (_stop_command p_cmd_name started) = Ok tt
  /\ threads stopped = threads s ++ [CommandThread_stop (thread_of w_command)]
  /\ m_cmd_threads stopped = delete p_cmd_name (m_cmd_threads s).
Proof.
  intros Hget Ha started stopped. subst stopped started. unfold exec.
  rewrite (_do_command_async s p_cmd_name w_command Hget Ha). simpl.
  rewrite (_stop_command_registered _ p_cmd_name (length (threads s)))
    by (simpl; apply lookup_insert_eq).
  simpl. repeat split.
  - apply lookup_insert_eq.
  - apply alter_last.
  - apply delete_insert_eq.
Qed.

(** X9 (witness). The theorem at a concrete input. *)
Lemma X9_async_start_then_stop_witness :
  let s := exec (set_profile (Some Sample.drills)) Sample.ready in
  m_cmd_threads (exec (_stop_command (py "spin")) (exec (_do_command (py "spin")) s))
  = delete (py "spin") (m_cmd_threads s).
Proof.
  intros s.
  apply (X9_async_start_then_stop s (py "spin") Sample.spin).
  - vm_compute. reflexivity.
  - reflexivity.
Defined.

(** X10. Dispatching an asynchronous command again while it runs creates
    a second thread and overwrites the registration of the first.  The
    first thread is then out of reach: no name of the registry refers to
    it, and stopping the command raises the flag of the second thread
    only, so the first runs on to the end of its repeats. *)
Theorem X10_second_start_orphans_the_first_thread
    (s : ProfileExecutor) (p_cmd_name : str) (w_command : Command) :
  registry_ok s ->
  _get_command_for_executing s p_cmd_name = Some w_command ->
  async w_command = true ->
  let first := length (threads s) in
  let twice := exec (_do_command p_cmd_name) (exec (_do_command p_cmd_name) s) in
  let stopped := exec (_stop_command p_cmd_name) twice in
  threads twice = threads s ++ [thread_of w_command; thread_of w_command]
  /\ m_cmd_threads twice !! p_cmd_name = Some (S first)
  /\ (forall k, m_cmd_threads twice !! k <> Some first)
  /\ threads stopped
     = threads s ++ [thread_of w_command; CommandThread_stop (thread_of w_command)]
  /\ (forall k, m_cmd_threads stopped !! k <> Some first).
Proof.
  intros Hok Hget Ha first twice stopped. subst stopped twice first.
  unfold exec.
  rewrite (_do_command_async s p_cmd_name w_command Hget Ha). simpl.
  rewrite (_do_command_async _ p_cmd_name w_command)
    by (try exact Ha; rewrite <- Hget;
        apply _get_command_for_executing_frame; reflexivity).
  simpl. rewrite length_app, Nat.add_1_r, <- app_assoc. simpl.
  rewrite insert_insert_eq.
  assert (Hfresh : forall k,
            <[p_cmd_name := S (length (threads s))]> (m_cmd_threads s) !! k
            <> Some (length (threads s))).
  { intros k. destruct (decide (p_cmd_name = k)) as [<-|Hne].
    - rewrite lookup_insert_eq. intros [= E]. lia.
    - rewrite lookup_insert_ne by exact Hne. intros E.
      specialize (Hok k _ E). lia. }
  rewrite (_stop_command_registered _ p_cmd_name (S (length (threads s))))
    by (simpl; apply lookup_insert_eq).
  simpl. repeat split.
  - apply lookup_insert_eq.
  - exact Hfresh.
  - apply alter_app_r_last.
  - intros k. rewrite delete_insert_eq.
    destruct (decide (p_cmd_name = k)) as [<-|Hne].
    + rewrite lookup_delete_eq. discriminate.
    + rewrite lookup_delete_ne by exact Hne. intros E.
      specialize (Hok k _ E). lia.
Qed.

(** X10 (witness). The theorem at a concrete input. *)
Lemma X10_second_start_orphans_the_first_thread_witness :
  let s := exec (set_profile (Some Sample.drills)) Sample.ready in
  threads (exec (_stop_command (py "spin"))
             (exec (_do_command (py "spin")) (exec (_do_command (py "spin")) s)))
  = [thread_of Sample.spin; CommandThread_stop (thread_of Sample.spin)].
Proof.
  intros s.
  destruct (X10_second_start_orphans_the_first_thread s (py "spin") Sample.spin)
    as (_ & _ & _ & H & _).
  - intros k t Hk. vm_compute in Hk. discriminate.
  - vm_compute. reflexivity.
  - reflexivity.
  - exact H.
Defined.

(** X11. Push-to-listen: once armed (hotkey kept, stream open, recognizer
    present) the handlers never raise, and after any sequence of keyboard
    or mouse events the stream is started exactly when the last press or
    release of the hotkey was a press (and is as it was when there was
    none); events of other keys or buttons, events named "unknown", double
    clicks, moves and wheel turns, a press while started and a release
    while stopped change nothing.  No other field of the session is
    touched. *)
Theorem X11_stream_follows_the_hotkey
    (h : Session) (k : Hotkey) (st : RawInputStream) (r : KaldiRecognizer) :
  ptl_key h = Some k ->
  m_stream (executor h) = Some st ->
  recognizer (executor h) = Some r ->
  (forall events,
     keyboard_hook events h
     = (Ok tt, with_active (key_held k events (active st)) h))
  /\ (forall events,
        mouse_hook events h
        = (Ok tt, with_active (button_held k events (active st)) h)).
Proof.
  intros Ek Es Er. split; intros events.
  - apply (keyboard_hook_run events h k st r); assumption.
  - apply (mouse_hook_run events h k st r); assumption.
Qed.

(** X11 (witness). Armed on F8: press, press again, another key, release,
    release again, press. *)
Lemma X11_stream_follows_the_hotkey_witness :
  let armed := execS (set_enable_listening true)
                 (SampleSession.start SampleSession.push_to_listen None Sample.ready) in
  m_stream (executor armed) = Some {| active := false |}
  /\ m_stream
       (executor
          (execS (keyboard_hook
                    [SampleSession.key 66 DOWN; SampleSession.key 66 DOWN;
                     SampleSession.key 30 UP; SampleSession.key 66 UP;
                     SampleSession.key 66 UP; SampleSession.key 66 DOWN])
             armed))
     = Some {| active := true |}.
Proof.
  intros armed. split; [vm_compute; reflexivity|].
  destruct (X11_stream_follows_the_hotkey armed SampleSession.f8
              {| active := false |} Sample.lgraph_model) as [Hk _];
    [vm_compute; reflexivity ..|].
  unfold execS. rewrite Hk. reflexivity.
Defined.







(** X15. The two back-ends of a mouse click.  Through [ydotool] the call
    never raises, injects nothing, and runs exactly one command line when
    the daemon is there and none otherwise, whatever the click type.
    Through the [mouse] library no command line is run; a press, release,
    click or double click (types 1, 0, 10, 11) returns after injecting
    events of that button only, which leave it pressed once more, once
    less, or as it was; any other type raises before anything is
    injected. *)
Theorem X15_click_back_ends_differ_on_unknown_types
    (path w_button : str) (w_type : Z) (h : Session) :
  let h' := execS (_click_mouse_key path w_button w_type) h in
  if USE_YDOTOOL (settings h) then
    fst (_click_mouse_key path w_button w_type h) = Ok tt
    /\ injected h' = injected h
    /\ exists line,
         shell h'
         = shell h ++ match ydotoold h with Some _ => [line] | None => [] end
  else if known_click_type w_type then
    fst (_click_mouse_key path w_button w_type h) = Ok tt
    /\ shell h' = shell h
    /\ exists events,
         injected h' = injected h ++ events
         /\ Forall (on_button w_button) events
         /\ held_balance w_button events
            = (if w_type =? 1 then 1 else if w_type =? 0 then -1 else 0)%Z
  else
    (exists e, fst (_click_mouse_key path w_button w_type h) = Raise e)
    /\ h' = h.
Proof.
  intros h'. subst h'. unfold execS. rewrite _click_mouse_key_run.
  destruct (USE_YDOTOOL (settings h)).
  - unfold _click_mouse_key_ydotool. rewrite _execute_ydotool_command_run.
    simpl. split; [reflexivity|].
    destruct (ydotoold h); simpl.
    + split; [reflexivity|]. eexists. reflexivity.
    + split; [reflexivity|]. exists []. now rewrite app_nil_r.
  - destruct (known_click_type w_type) eqn:Ek.
    + apply known_click_type_cases in Ek.
      destruct Ek as [-> | [-> | [-> | ->]]]; simpl;
        (split; [reflexivity|]; split; [reflexivity|]);
        eexists; (split; [reflexivity|]);
        (split; [repeat constructor|]);
        simpl; rewrite str_eqb_refl; reflexivity.
    + unfold known_click_type in Ek. simpl in Ek.
      rewrite !orb_false_iff in Ek. destruct Ek as (E1 & E0 & E10 & E11 & _).
      unfold _click_mouse_key_mouse. rewrite E1, E0, E10, E11. simpl.
      split; [eexists; reflexivity | reflexivity].
Qed.

(** X16. With [USE_YDOTOOL] set and no daemon (it could not be started, or
    [shutdown] killed it), every mouse action is dropped: a click, a move
    and a turn of the wheel return and leave the session as it was. *)
Theorem X16_mouse_actions_dropped_without_daemon (path : str) (h : Session) :
  USE_YDOTOOL (settings h) = true ->
  ydotoold h = None ->
  (forall w_button w_type,
     _click_mouse_key path w_button w_type h = (Ok tt, h))
  /\ (forall x y absolute, _move_mouse path x y absolute h = (Ok tt, h))
  /\ (forall delta, _scroll_mouse path delta h = (Ok tt, h)).
Proof.
  intros Hu Hd. repeat split; intros;
    unfold _click_mouse_key, _move_mouse,
      _scroll_mouse, _click_mouse_key_ydotool, _move_mouse_ydotool,
      _scroll_mouse_ydotool, mbind at 1, SM_bind at 1, getS; cbv beta iota;
    rewrite Hu, _execute_ydotool_command_run, Hd; reflexivity.
Qed.

(** X16 (witness). After a shutdown that killed the daemon, a click goes
    nowhere. *)
Lemma X16_mouse_actions_dropped_without_daemon_witness :
  let h := execS (shutdown false)
             (SampleSession.start SampleSession.with_daemon (Some 7)
                Sample.ready) in
  killed h = [7]
  /\ _click_mouse_key (py "/tmp/.ydotool_socket") (py "left") 10 h = (Ok tt, h).
Proof.
  intros h. split; [reflexivity|].
  apply (X16_mouse_actions_dropped_without_daemon
           (py "/tmp/.ydotool_socket") h); reflexivity.
Defined.







(** X20. [_play_sound] plays a file the action names.  Whatever is drawn,
    the call changes nothing but the sound that plays.  When it returns it
    has played [root + pack + '/' + cat + '/' + file], where the file is
    one of ['files'] if that list is there and not empty and the one of
    ['file'] otherwise, or the action names no file and nothing was
    played, whether ['pack'] and ['cat'] are there or not.  It raises
    only when the action names a file and ['pack'] or ['cat'] is missing
    or [None], and then plays nothing. *)
Theorem X20_play_sound_plays_a_named_file
    (root : str) (draw : nat) (a : SoundAction) (h : Session) :
  let h' := execS (_play_sound root draw a) h in
  set_sound_playing (sound_playing h) h' = h
  /\ match fst (_play_sound root draw a h) with
     | Ok _ =>
         ((forall f, ~ names_file a f) /\ h' = h)
         \/ exists pack cat f,
              sa_pack a = Str pack /\ sa_cat a = Str cat /\ names_file a f
              /\ sound_playing h'
                 = Some (root ++ pack ++ py "/" ++ cat ++ py "/" ++ f)
     | Raise _ =>
         h' = h /\ (exists f, names_file a f)
         /\ ((forall pack, sa_pack a <> Str pack)
             \/ (forall cat, sa_cat a <> Str cat))
     end.
Proof.
  intros h'. subst h'. unfold execS, _play_sound.
  assert (Hsel :
    match (match sa_files a with
           | Some (f :: fs) => Some (choice draw (f :: fs))
           | _ => sa_file a
           end) with
    | Some f => names_file a f
    | None => forall f, ~ names_file a f
    end).
  { unfold names_file. destruct (sa_files a) as [[|x xs]|].
    - destruct (sa_file a); [reflexivity | intros f; discriminate].
    - unfold choice. apply list_elem_of_In, nth_In.
      apply Nat.mod_upper_bound. discriminate.
    - destruct (sa_file a); [reflexivity | intros f; discriminate]. }
  destruct (match sa_files a with
            | Some (f :: fs) => Some (choice draw (f :: fs))
            | _ => sa_file a
            end) as [f|].
  2:{ cbn. split; [now destruct h|]. left. split; [exact Hsel | reflexivity]. }
  unfold mbind, SM_bind, plus_entry.
  destruct (sa_pack a) as [| |pack], (sa_cat a) as [| |cat]; cbn;
    (split; [now destruct h|]);
    try (split; [reflexivity|]; split; [now exists f|];
         solve [left; intros ?; discriminate | right; intros ?; discriminate]).
  right. exists pack, cat, f. repeat split; try assumption.
  now rewrite <- !app_assoc.
Qed.
